(** * go-tuf client: resolution of a target through delegated targets roles

    Shallow embedding of [client/delegations.go]: the delegations iterator
    ([newDelegationsIterator], [next], [add]), the loader
    [loadDelegatedTargets], [loadLocalSnapshot] and the resolver
    [getTargetFileMeta].

    Go values are embedded as follows.
    - [int] is [Z]; no arithmetic is done on versions, and the loop counter
      [i] only runs from [0] to [c.MaxDelegations].
    - [json.RawMessage] is [list Byte.byte].
    - [map[string]T] is [gmap string T]; [map[string]struct{}] is
      [gset string].
    - a slice is a [list] in the same order: index 0 first, so that the top
      of [d.stack] is the LAST element and [append] is [++ [x]].
    - a Go result [(T, error)] is the sum [error + T]; a method that returns
      only [error] and mutates its receiver returns [option error] together
      with the new receiver.
    - packages [data], [verify] and the stores are not part of the sources
      at hand: their types are abstract and their functions are the fields
      of the class [Collaborators]. *)

From stdpp Require Import base option list gmap strings.
From Stdlib Require Import ZArith Lia.

Local Open Scope Z_scope.
Local Open Scope string_scope.
Local Open Scope list_scope.

(** ** Package [data] *)

Definition RawMessage : Type := list Byte.byte.

Record DelegatedRole : Type := mkDelegatedRole {
  Name : string;
  KeyIDs : list string;
  Threshold : Z;
  Terminating : bool;
  PathHashPrefixes : list string;
  Paths : list string;
}.

Record TargetFileMeta : Type := mkTargetFileMeta {
  tfm_Length : Z;
  tfm_Hashes : list (string * RawMessage);
  tfm_Custom : option RawMessage;
}.

Record SnapshotFileMeta : Type := mkSnapshotFileMeta {
  sfm_Length : Z;
  sfm_Hashes : list (string * RawMessage);
  sfm_Version : Z;
}.

Record Snapshot : Type := mkSnapshot {
  snapshot_Version : Z;
  snapshot_Meta : gmap string SnapshotFileMeta;
}.

Record Delegations : Type := mkDelegations {
  Keys : list (string * RawMessage);
  Roles : list DelegatedRole;
}.

Record Targets : Type := mkTargets {
  targets_Version : Z;
  targets_Expires : Z;
  targets_Targets : gmap string TargetFileMeta;
  targets_Delegations : option Delegations;
}.

(** [data.DelegatedRole{Name: name}]: every other field has its zero value. *)
Definition DelegatedRole_named (name : string) : DelegatedRole :=
  {| Name := name; KeyIDs := []; Threshold := 0; Terminating := false;
     PathHashPrefixes := []; Paths := [] |}.

(** ** Types of the collaborators *)

Class Types : Type := {
  (** [verify.DelegationsVerifier], with its zero value *)
  DelegationsVerifier : Type;
  DelegationsVerifier_zero : DelegationsVerifier;
  (** [*verify.DB] *)
  DB : Type;
  (** [LocalStore] and [RemoteStore] *)
  LocalStore : Type;
  RemoteStore : Type;
  (** the concrete errors of [data], [verify] and the stores *)
  ExtError : Type;
}.

(** ** Errors of package [client]

    Every error value the modelled functions build themselves has its own
    constructor; an error received from a collaborator and handed on as it
    is, is [ErrExternal]. *)
Inductive error {TY : Types} : Type :=
  | ErrUnknownTarget (name : string) (snapshotVersion : Z)
  | ErrMaxDelegations (tgt : string) (maxDelegations snapshotVersion : Z)
  | ErrNoLocalSnapshot
  | ErrDecodeFailed (file : string) (err : ExtError)
  | ErrRoleNotInSnapshot (role : string) (snapshotVersion : Z)
  | ErrExternal (err : ExtError).

(** The fields of [Client] that the modelled functions read or write. *)
Record Client {TY : Types} : Type := mkClient {
  local : LocalStore;
  remote : RemoteStore;
  localMeta : gmap string RawMessage;
  db : DB;
  snapshotVer : Z;
  MaxDelegations : Z;
}.

Definition set_local {TY : Types} (c : Client) (l : LocalStore) : Client :=
  {| local := l; remote := remote c; localMeta := localMeta c; db := db c;
     snapshotVer := snapshotVer c; MaxDelegations := MaxDelegations c |}.

(** ** Functions of the collaborators *)

Class Collaborators {TY : Types} : Type := {
  (** [func (d DelegatedRole) MatchesPath(file string) (bool, error)] *)
  MatchesPath : DelegatedRole -> string -> ExtError + bool;
  (** [verify.NewDelegationsVerifier] *)
  NewDelegationsVerifier : Delegations -> ExtError + DelegationsVerifier;
  (** [verifier.Unmarshal(raw, targets, role, minVersion)] *)
  verifier_Unmarshal :
    DelegationsVerifier -> RawMessage -> string -> Z -> ExtError + Targets;
  (** [c.db.Unmarshal(raw, targets, role, minVersion)] into a [*data.Targets] *)
  db_Unmarshal_targets : DB -> RawMessage -> string -> Z -> ExtError + Targets;
  (** [c.db.Unmarshal(raw, snapshot, role, minVersion)] into a
      [*data.Snapshot] *)
  db_Unmarshal_snapshot : DB -> RawMessage -> string -> Z -> ExtError + Snapshot;
  (** [c.getLocalMeta()]: reloads the client's view of the local store *)
  getLocalMeta : Client -> option ExtError * Client;
  (** [c.localMetaFromSnapshot(name, m)] *)
  localMetaFromSnapshot :
    Client -> string -> SnapshotFileMeta -> RawMessage * bool;
  (** [c.downloadMetaFromSnapshot(name, m)] *)
  downloadMetaFromSnapshot :
    Client -> string -> SnapshotFileMeta -> ExtError + RawMessage;
  (** [c.local.SetMeta(name, raw)] *)
  SetMeta : LocalStore -> string -> RawMessage -> option ExtError * LocalStore;
}.

Section Delegations.
Context {TY : Types} {CO : Collaborators}.

(** ** The delegations iterator *)

Record delegation : Type := mkDelegation {
  delegator : string;
  verifier : DelegationsVerifier;
  delegatee : DelegatedRole;
}.

Record delegationsIterator : Type := mkIterator {
  stack : list delegation;
  target : string;
  visitedRoles : gset string;
}.

Definition set_stack (d : delegationsIterator) (s : list delegation)
  : delegationsIterator :=
  {| stack := s; target := target d; visitedRoles := visitedRoles d |}.

Definition set_visitedRoles (d : delegationsIterator) (v : gset string)
  : delegationsIterator :=
  {| stack := stack d; target := target d; visitedRoles := v |}.

(** The first step of every iterator: the top level targets role, with no
    delegator and the zero verifier. *)
Definition seed : delegation :=
  {| delegator := EmptyString; verifier := DelegationsVerifier_zero;
     delegatee := DelegatedRole_named "targets" |}.

Definition newDelegationsIterator (tgt : string) : delegationsIterator :=
  {| target := tgt; stack := [seed]; visitedRoles := ∅ |}.

(** [next] calls itself after it has removed one element of [d.stack]; the
    recursion is on a counter that starts at [len(d.stack)], which
    [next_unfold] below shows to be enough. *)
Fixpoint next_rec (fuel : nat) (d : delegationsIterator)
  : option delegation * delegationsIterator :=
  match fuel with
  | O => (None, d)
  | S fuel' =>
      match last (stack d) with
      | None => (None, d)
      | Some dlg =>
          let d1 := set_stack d (removelast (stack d)) in
          let roleName := Name (delegatee dlg) in
          if decide (roleName ∈ visitedRoles d1) then next_rec fuel' d1
          else
            let d2 := set_visitedRoles d1 ({[roleName]} ∪ visitedRoles d1) in
            let d3 := if Terminating (delegatee dlg) then set_stack d2 [] else d2 in
            (Some dlg, d3)
      end
  end.

Definition next (d : delegationsIterator)
  : option delegation * delegationsIterator :=
  next_rec (length (stack d)) d.

(** The number of activations of [next] that one call opens: one, plus one
    for every [return d.next()] that is reached (Go does not turn a call in
    return position into a jump). *)
Fixpoint next_frames_rec (fuel : nat) (d : delegationsIterator) : nat :=
  match fuel with
  | O => 1
  | S fuel' =>
      match last (stack d) with
      | None => 1
      | Some dlg =>
          let d1 := set_stack d (removelast (stack d)) in
          if decide (Name (delegatee dlg) ∈ visitedRoles d1)
          then S (next_frames_rec fuel' d1)
          else 1
      end
  end.

Definition next_frames (d : delegationsIterator) : nat :=
  next_frames_rec (length (stack d)) d.

(** The body of the loop of [add], for [r := roles[i]], and the loop itself
    over [roles[len-1]], ..., [roles[0]]. *)
Fixpoint add_loop (rroles : list DelegatedRole) (d : delegationsIterator)
    (dlgtor : string) (v : DelegationsVerifier)
  : option error * delegationsIterator :=
  match rroles with
  | [] => (None, d)
  | r :: rest =>
      match MatchesPath r (target d) with
      | inl err => (Some (ErrExternal err), d)
      | inr matchesPath =>
          let d' :=
            if matchesPath
            then set_stack d (stack d ++
                   [{| delegator := dlgtor; delegatee := r; verifier := v |}])
            else d in
          add_loop rest d' dlgtor v
      end
  end.

Definition add (d : delegationsIterator) (roles : list DelegatedRole)
    (dlgtor : string) (v : DelegationsVerifier)
  : option error * delegationsIterator :=
  add_loop (rev roles) d dlgtor v.

(** ** Loading the local snapshot and the metadata of one role *)

Definition loadLocalSnapshot (c : Client) : (error + Snapshot) * Client :=
  match getLocalMeta c with
  | (Some err, c1) => (inl (ErrExternal err), c1)
  | (None, c1) =>
      match localMeta c1 !! "snapshot.json" with
      | None => (inl ErrNoLocalSnapshot, c1)
      | Some rawS =>
          match db_Unmarshal_snapshot (db c1) rawS "snapshot" (snapshotVer c1) with
          | inl err => (inl (ErrDecodeFailed "snapshot.json" err), c1)
          | inr snapshot => (inr snapshot, c1)
          end
      end
  end.

(** [loadDelegatedTargets] downloads, decodes, verifies and stores targets. *)
Definition loadDelegatedTargets (c : Client) (snapshot : Snapshot)
    (role : string) (v : DelegationsVerifier) : (error + Targets) * Client :=
  let fileName := role +:+ ".json" in
  match snapshot_Meta snapshot !! fileName with
  | None => (inl (ErrRoleNotInSnapshot role (snapshot_Version snapshot)), c)
  | Some fileMeta =>
      let '(raw0, alreadyStored) := localMetaFromSnapshot c fileName fileMeta in
      match (if alreadyStored then inr raw0
             else downloadMetaFromSnapshot c fileName fileMeta) with
      | inl err => (inl (ErrExternal err), c)
      | inr raw =>
          match (if decide (role = "targets")
                 then db_Unmarshal_targets (db c) raw role (sfm_Version fileMeta)
                 else verifier_Unmarshal v raw role (sfm_Version fileMeta)) with
          | inl err => (inl (ErrDecodeFailed fileName err), c)
          | inr targets =>
              if alreadyStored then (inr targets, c)
              else
                match SetMeta (local c) fileName raw with
                | (Some err, l) => (inl (ErrExternal err), set_local c l)
                | (None, l) => (inr targets, set_local c l)
                end
          end
      end
  end.

(** The bytes that [loadDelegatedTargets] holds in [raw] when it reaches the
    verification: the local copy when there is one that agrees with the
    snapshot, the download otherwise. *)
Definition obtained (c : Client) (fileName : string) (fileMeta : SnapshotFileMeta)
  : ExtError + RawMessage :=
  if snd (localMetaFromSnapshot c fileName fileMeta)
  then inr (fst (localMetaFromSnapshot c fileName fileMeta))
  else downloadMetaFromSnapshot c fileName fileMeta.

(** The verifier that [loadDelegatedTargets] applies to [raw]. *)
Definition unmarshal (c : Client) (role : string) (v : DelegationsVerifier)
    (raw : RawMessage) (fileMeta : SnapshotFileMeta) : ExtError + Targets :=
  if decide (role = "targets")
  then db_Unmarshal_targets (db c) raw role (sfm_Version fileMeta)
  else verifier_Unmarshal v raw role (sfm_Version fileMeta).

(** The errors [loadDelegatedTargets] can return. *)
Definition load_error (e : error) : Prop :=
  match e with
  | ErrRoleNotInSnapshot _ _ | ErrExternal _ | ErrDecodeFailed _ _ => True
  | _ => False
  end.

(** ** The resolver *)

(** How one pass through the body of the [for] loop of [getTargetFileMeta]
    ends: with a [return], or by reaching the end of the body. *)
Inductive flow : Type :=
  | Return (r : error + TargetFileMeta)
  | Continue.

Definition loop_body (snapshot : Snapshot) (tgt : string) (c : Client)
    (it : delegationsIterator) : flow * Client * delegationsIterator :=
  match next it with
  | (None, it1) =>
      (Return (inl (ErrUnknownTarget tgt (snapshot_Version snapshot))), c, it1)
  | (Some d, it1) =>
      match loadDelegatedTargets c snapshot (Name (delegatee d)) (verifier d) with
      | (inl err, c1) => (Return (inl err), c1, it1)
      | (inr targets, c1) =>
          match targets_Targets targets !! tgt with
          | Some m => (Return (inr m), c1, it1)
          | None =>
              match targets_Delegations targets with
              | None => (Continue, c1, it1)
              | Some dels =>
                  match NewDelegationsVerifier dels with
                  | inl err => (Return (inl (ErrExternal err)), c1, it1)
                  | inr delegationsVerifier =>
                      match add it1 (Roles dels) (Name (delegatee d))
                              delegationsVerifier with
                      | (Some err, it2) => (Return (inl err), c1, it2)
                      | (None, it2) => (Continue, c1, it2)
                      end
                  end
              end
          end
      end
  end.

(** [for i := 0; i < c.MaxDelegations; i++ { body }] followed by the final
    [return]: [n] is the number of passes that are left. The body leaves
    [c.MaxDelegations] as it is ([loop_body_MaxDelegations] below), so the
    bound is fixed when the loop is entered. The iterator is returned next
    to the result so that its last state can be spoken about. *)
Fixpoint for_loop (n : nat) (snapshot : Snapshot) (tgt : string) (c : Client)
    (it : delegationsIterator)
  : (error + TargetFileMeta) * Client * delegationsIterator :=
  match n with
  | O =>
      (inl (ErrMaxDelegations tgt (MaxDelegations c) (snapshot_Version snapshot)),
       c, it)
  | S n' =>
      match loop_body snapshot tgt c it with
      | (Return r, c', it') => (r, c', it')
      | (Continue, c', it') => for_loop n' snapshot tgt c' it'
      end
  end.

Definition getTargetFileMeta (c : Client) (tgt : string)
  : (error + TargetFileMeta) * Client :=
  match loadLocalSnapshot c with
  | (inl err, c1) => (inl err, c1)
  | (inr snapshot, c1) =>
      let '(r, c2, _) :=
        for_loop (Z.to_nat (MaxDelegations c1)) snapshot tgt c1
          (newDelegationsIterator tgt) in
      (r, c2)
  end.

(** ** Observations on a run of the loop

    These functions are not part of the program: they replay the loop to
    name the states it goes through and the calls it makes. *)

(** The state after [k] passes that all reached the end of the body. *)
Fixpoint iterations (k : nat) (snapshot : Snapshot) (tgt : string) (c : Client)
    (it : delegationsIterator) : option (Client * delegationsIterator) :=
  match k with
  | O => Some (c, it)
  | S k' =>
      match loop_body snapshot tgt c it with
      | (Continue, c', it') => iterations k' snapshot tgt c' it'
      | (Return _, _, _) => None
      end
  end.

(** The calls of [loadDelegatedTargets] made by [for_loop n], in order: the
    delegation whose role name and verifier were passed, and the result. *)
Fixpoint loads (n : nat) (snapshot : Snapshot) (tgt : string) (c : Client)
    (it : delegationsIterator) : list (delegation * (error + Targets)) :=
  match n with
  | O => []
  | S n' =>
      match next it with
      | (None, _) => []
      | (Some d, _) =>
          (d, fst (loadDelegatedTargets c snapshot (Name (delegatee d)) (verifier d)))
          :: match loop_body snapshot tgt c it with
             | (Continue, c', it') => loads n' snapshot tgt c' it'
             | (Return _, _, _) => []
             end
      end
  end.

(** The delegations among [roles] that [add] keeps, in declared order. *)
Definition is_match (tgt : string) (r : DelegatedRole) : bool :=
  match MatchesPath r tgt with
  | inr true => true
  | _ => false
  end.

Definition edge (dlgtor : string) (v : DelegationsVerifier) (r : DelegatedRole)
  : delegation :=
  {| delegator := dlgtor; delegatee := r; verifier := v |}.

Definition matching_edges (tgt : string) (roles : list DelegatedRole)
    (dlgtor : string) (v : DelegationsVerifier) : list delegation :=
  map (edge dlgtor v) (List.filter (is_match tgt) roles).

(** The role names of the calls, in order. *)
Definition names (l : list (delegation * (error + Targets))) : list string :=
  map (fun e => Name (delegatee (fst e))) l.

(** [d] was added for a call in [log]: that call loaded the metadata of the
    delegator of [d], which declares the role of [d]; the role matches the
    target; and the verifier of [d] was made from the delegations of that
    metadata. *)
Definition parented (tgt : string) (log : list (delegation * (error + Targets)))
    (d : delegation) : Prop :=
  exists p targets dels,
    In (p, inr targets) log /\
    targets_Delegations targets = Some dels /\
    NewDelegationsVerifier dels = inr (verifier d) /\
    delegator d = Name (delegatee p) /\
    In (delegatee d) (Roles dels) /\
    MatchesPath (delegatee d) tgt = inr true.

(** Some visited delegation was terminating. *)
Definition terminated (l : list (delegation * (error + Targets))) : bool :=
  existsb (fun e => Terminating (delegatee (fst e))) l.

(** The loop ended because [next] had nothing left. *)
Definition exhausted (r : error + TargetFileMeta) : bool :=
  match r with
  | inl (ErrUnknownTarget _ _) => true
  | _ => false
  end.

(** The number of delegations on top of the stack that [next] removes
    because their role has been visited. *)
Fixpoint visited_run (rstack : list delegation) (visited : gset string) : nat :=
  match rstack with
  | [] => O
  | dlg :: rest =>
      if decide (Name (delegatee dlg) ∈ visited) then S (visited_run rest visited)
      else O
  end.

(** A call whose metadata was loaded and does not list the target. *)
Definition passed_over (tgt : string) (e : delegation * (error + Targets))
  : Prop :=
  exists targets,
    snd e = inr targets /\ targets_Targets targets !! tgt = None.

End Delegations.

(** ** The contract of the verifiers *)

Inductive VerifyError : Type :=
  | InsufficientSignatures
  | VersionMismatch
  | Expired
  | Unparsable.

(** Modelled from the spec: package [verify] ([DB.Unmarshal] and
    [DelegationsVerifier.Unmarshal]) is not part of the sources. The spec
    gives both verifiers one contract, [verify_and_decode(raw, role_name,
    expected_version)]: the signatures over [raw] must meet the threshold
    of the role; after that [raw] is decoded, the decoded version must be
    the expected one ([VersionMismatch] otherwise) and the declared expiry
    must not have passed ([Expired] otherwise). [signatures_ok] is the
    signature check of the verifier at hand, [decode] the parser and [now]
    the clock. *)
Definition verify_and_decode
    (signatures_ok : RawMessage -> string -> bool)
    (decode : RawMessage -> option Targets) (now : Z)
    (raw : RawMessage) (role_name : string) (expected_version : Z)
  : VerifyError + Targets :=
  if signatures_ok raw role_name then
    match decode raw with
    | None => inl Unparsable
    | Some decoded =>
        if decide (targets_Version decoded = expected_version) then
          if (targets_Expires decoded <? now)%Z then inl Expired else inr decoded
        else inl VersionMismatch
    end
  else inl InsufficientSignatures.

(** ** The contract of the fetch *)

(** Modelled from the spec: [Client.localMetaFromSnapshot] and
    [Client.downloadMetaFromSnapshot] are not part of the sources. The
    spec has the loader read the bytes of a role from the local cache, or
    download them, and accept them only when they agree with what the
    snapshot declares for the file, a download that does not agree being a
    failure of the download; the comments of [loadDelegatedTargets] on
    these two calls (5.6.2, 5.6.4) name the snapshot hash and the snapshot
    version as what is checked. [digest_ok] is the check of the length and
    of the hashes, [decode] the parser. *)
Definition agrees_with_snapshot
    (digest_ok : RawMessage -> SnapshotFileMeta -> bool)
    (decode : RawMessage -> option Targets)
    (raw : RawMessage) (fileMeta : SnapshotFileMeta) : bool :=
  digest_ok raw fileMeta &&
  match decode raw with
  | Some decoded =>
      bool_decide (targets_Version decoded = sfm_Version fileMeta)
  | None => false
  end.

(** The local copy, and whether it can stand for the file. *)
Definition local_copy (agrees : RawMessage -> SnapshotFileMeta -> bool)
    (stored : option RawMessage) (fileMeta : SnapshotFileMeta)
  : RawMessage * bool :=
  match stored with
  | Some b => (b, agrees b fileMeta)
  | None => ([], false)
  end.

(** The download of what the remote store serves under the name. *)
Definition downloaded {E : Type}
    (agrees : RawMessage -> SnapshotFileMeta -> bool) (not_found integrity : E)
    (served : option RawMessage) (fileMeta : SnapshotFileMeta)
  : E + RawMessage :=
  match served with
  | None => inl not_found
  | Some b => if agrees b fileMeta then inr b else inl integrity
  end.

(** ** A small repository to run the client on

    The collaborators are instantiated with finite tables: a document is
    found by its bytes, its signatures are the list of the key ids that
    signed it, a path pattern matches the path it spells, and both stores
    are maps from file names to bytes. *)
Module Demo.

Inductive DemoError : Type :=
  | VerifyErr (e : VerifyError)
  | MalformedPattern
  | NotFound
  | IntegrityError.

Record Doc : Type := mkDoc {
  doc_signers : list string;
  doc_body : Targets;
}.

Record World : Type := mkWorld {
  w_docs : list (string * Doc);
  w_snapshot : Snapshot;
  w_now : Z;
}.

#[export] Instance demo_types : Types := {|
  DelegationsVerifier := list DelegatedRole;
  DelegationsVerifier_zero := [];
  DB := list string;
  LocalStore := gmap string RawMessage;
  RemoteStore := gmap string RawMessage;
  ExtError := DemoError;
|}.

Fixpoint assoc {A : Type} (k : string) (l : list (string * A)) : option A :=
  match l with
  | [] => None
  | (k', a) :: l' => if String.eqb k k' then Some a else assoc k l'
  end.

Definition find_doc (w : World) (raw : RawMessage) : option Doc :=
  assoc (String.string_of_list_byte raw) (w_docs w).

Definition decode (w : World) (raw : RawMessage) : option Targets :=
  doc_body <$> find_doc w raw.

Definition count_signers (keyids signers : list string) : Z :=
  Z.of_nat (length (List.filter (fun k => existsb (String.eqb k) signers) keyids)).

(** Signatures under the keys a delegator declares for [role]. *)
Definition delegated_ok (w : World) (v : list DelegatedRole) (raw : RawMessage)
    (role : string) : bool :=
  match find_doc w raw with
  | None => false
  | Some doc =>
      existsb (fun r => String.eqb (Name r) role
                        && (Threshold r <=? count_signers (KeyIDs r) (doc_signers doc))%Z)
              v
  end.

(** Signatures under the keys of the root of trust. *)
Definition root_ok (w : World) (rootkeys : list string) (raw : RawMessage)
    (role : string) : bool :=
  match find_doc w raw with
  | None => false
  | Some doc => (1 <=? count_signers rootkeys (doc_signers doc))%Z
  end.

Definition matches (r : DelegatedRole) (file : string) : DemoError + bool :=
  match Paths r, PathHashPrefixes r with
  | [], [] => inr true
  | ps, [] => inr (existsb (String.eqb file) ps)
  | [], _ :: _ => inr false
  | _ :: _, _ :: _ => inl MalformedPattern
  end.

Definition has_length (b : RawMessage) (m : SnapshotFileMeta) : bool :=
  (Z.of_nat (length b) =? sfm_Length m)%Z.

(** The digest of the small repository is the bytes themselves. *)
Definition digest_ok (b : RawMessage) (m : SnapshotFileMeta) : bool :=
  has_length b m &&
  forallb (fun h => String.eqb (String.string_of_list_byte (snd h))
                      (String.string_of_list_byte b))
          (sfm_Hashes m).

#[export] Instance demo_collab (w : World) : Collaborators := {|
  MatchesPath := matches;
  NewDelegationsVerifier := fun dels => inr (Roles dels);
  verifier_Unmarshal := fun v raw role ver =>
    sum_map VerifyErr id
      (verify_and_decode (delegated_ok w v) (decode w) (w_now w) raw role ver);
  db_Unmarshal_targets := fun d raw role ver =>
    sum_map VerifyErr id
      (verify_and_decode (root_ok w d) (decode w) (w_now w) raw role ver);
  db_Unmarshal_snapshot := fun _ _ _ _ => inr (w_snapshot w);
  getLocalMeta := fun c =>
    (None, {| local := local c; remote := remote c; localMeta := local c;
              db := db c; snapshotVer := snapshotVer c;
              MaxDelegations := MaxDelegations c |});
  localMetaFromSnapshot := fun c name m =>
    local_copy (agrees_with_snapshot digest_ok (decode w))
      (localMeta c !! name) m;
  downloadMetaFromSnapshot := fun c name m =>
    downloaded (agrees_with_snapshot digest_ok (decode w)) NotFound
      IntegrityError (remote c !! name) m;
  SetMeta := fun l name raw => (None, <[name := raw]> l);
|}.

(** *** The documents *)

Definition bytes (s : string) : RawMessage := String.list_byte_of_string s.

Definition role (name : string) (paths : list string) (terminating : bool)
  : DelegatedRole :=
  {| Name := name; KeyIDs := ["k-" +:+ name]; Threshold := 1;
     Terminating := terminating; PathHashPrefixes := []; Paths := paths |}.

Definition meta (len : Z) : TargetFileMeta :=
  {| tfm_Length := len; tfm_Hashes := []; tfm_Custom := None |}.

Definition doc (name : string) (version : Z)
    (files : list (string * TargetFileMeta)) (roles : list DelegatedRole) : Doc :=
  {| doc_signers := ["k-" +:+ name];
     doc_body :=
       {| targets_Version := version; targets_Expires := 100;
          targets_Targets := list_to_map files;
          targets_Delegations :=
            match roles with
            | [] => None
            | _ => Some {| Keys := []; Roles := roles |}
            end |} |}.

(** Every file is stored under the bytes of its name, seven bytes for
    [targets] and one byte for the other roles. *)
Definition pin (name : string) (version : Z) : string * SnapshotFileMeta :=
  (name +:+ ".json",
   {| sfm_Length := Z.of_nat (String.length name); sfm_Hashes := [];
      sfm_Version := version |}).

Definition store (names : list string) : gmap string RawMessage :=
  list_to_map (map (fun n => (n +:+ ".json", bytes n)) names).

Definition client (names : list string) (maxDelegations : Z) : Client :=
  {| local := store ["snapshot"]; remote := store names; localMeta := ∅;
     db := ["k-targets"]; snapshotVer := 1; MaxDelegations := maxDelegations |}.

(** [targets] delegates to [A] (for [f]), to [M] (for [g]) and to [B] (for
    every path); [A] delegates to [C] and back to [targets]; [f] is in [B], in
    [D] below [B], and in [M], which does not match [f]. *)
Definition tree : World :=
  {| w_docs :=
       [("targets", doc "targets" 1 []
           [role "A" ["f"] false; role "M" ["g"] false; role "B" [] false]);
        ("A", doc "A" 1 [] [role "C" [] false; role "targets" [] false]);
        ("C", doc "C" 1 [] []);
        ("M", doc "M" 1 [("f", meta 7)] []);
        ("B", doc "B" 1 [("f", meta 42)] [role "D" [] false]);
        ("D", doc "D" 1 [("f", meta 43)] [])];
     w_snapshot :=
       {| snapshot_Version := 5;
          snapshot_Meta :=
            list_to_map [pin "targets" 1; pin "A" 1; pin "C" 1; pin "M" 1;
                         pin "B" 1; pin "D" 1] |};
     w_now := 50 |}.

Definition tree_client (maxDelegations : Z) : Client :=
  client ["targets"; "A"; "B"; "C"; "D"; "M"] maxDelegations.

(** [targets] delegates to [T], terminating, and to [B]; [T] delegates to
    [U]; [f] is in [U] and in [B]. *)
Definition pruned : World :=
  {| w_docs :=
       [("targets", doc "targets" 1 [] [role "T" [] true; role "B" [] false]);
        ("T", doc "T" 1 [] [role "U" [] false]);
        ("U", doc "U" 1 [("f", meta 9)] []);
        ("B", doc "B" 1 [("f", meta 42)] [])];
     w_snapshot :=
       {| snapshot_Version := 5;
          snapshot_Meta :=
            list_to_map [pin "targets" 1; pin "T" 1; pin "U" 1; pin "B" 1] |};
     w_now := 50 |}.

Definition pruned_client (maxDelegations : Z) : Client :=
  client ["targets"; "T"; "U"; "B"] maxDelegations.

(** [targets] delegates to [B] and [B] back to [targets]; [f] is nowhere. *)
Definition cycle : World :=
  {| w_docs :=
       [("targets", doc "targets" 1 [] [role "B" [] false]);
        ("B", doc "B" 1 [] [role "targets" [] false])];
     w_snapshot :=
       {| snapshot_Version := 5;
          snapshot_Meta := list_to_map [pin "targets" 1; pin "B" 1] |};
     w_now := 50 |}.

Definition cycle_client (maxDelegations : Z) : Client :=
  client ["targets"; "B"] maxDelegations.

(** The snapshot pins version 1 of [A]; the repository serves version 2. *)
Definition stale : World :=
  {| w_docs :=
       [("targets", doc "targets" 1 [] [role "A" [] false]);
        ("A", doc "A" 2 [("f", meta 42)] [])];
     w_snapshot :=
       {| snapshot_Version := 5;
          snapshot_Meta := list_to_map [pin "targets" 1; pin "A" 1] |};
     w_now := 50 |}.

Definition stale_client (maxDelegations : Z) : Client :=
  client ["targets"; "A"] maxDelegations.

(** *** States of the runs *)

Definition start : delegationsIterator := newDelegationsIterator "f".

(** The client once the local snapshot is loaded. *)
Definition loaded (w : World) (c : Client) : Client :=
  snd (loadLocalSnapshot (CO := demo_collab w) c).

(** The state after [k] passes of the loop. *)
Definition after (w : World) (c : Client) (k : nat)
  : Client * delegationsIterator :=
  default (loaded w c, start)
    (iterations (CO := demo_collab w) k (w_snapshot w) "f" (loaded w c) start).

(** The call made in the pass after those: the delegation, what
    [loadDelegatedTargets] returns for it, and the iterator [next] leaves. *)
Definition popped (w : World) (c : Client) (k : nat) : delegation :=
  default seed (fst (next (snd (after w c k)))).

Definition load (w : World) (c : Client) (k : nat) : (error + Targets) * Client :=
  loadDelegatedTargets (CO := demo_collab w) (fst (after w c k)) (w_snapshot w)
    (Name (delegatee (popped w c k))) (verifier (popped w c k)).

Definition no_targets : Targets :=
  {| targets_Version := 0; targets_Expires := 0; targets_Targets := ∅;
     targets_Delegations := None |}.

Definition loaded_targets (w : World) (c : Client) (k : nat) : Targets :=
  match fst (load w c k) with
  | inr t => t
  | inl _ => no_targets
  end.

(** The iterator of [pruned] when [T] and [B] are pending, and once [next]
    has returned [T]. *)
Definition T_edge : delegation :=
  edge "targets" [role "T" [] true; role "B" [] false] (role "T" [] true).

Definition B_edge : delegation :=
  edge "targets" [role "T" [] true; role "B" [] false] (role "B" [] false).

Definition U_edge : delegation :=
  edge "T" [role "U" [] false] (role "U" [] false).

Definition pending : delegationsIterator :=
  mkIterator [B_edge; T_edge] "f" ({["targets"]} ∪ ∅).

Definition after_T : delegationsIterator :=
  mkIterator [] "f" ({["T"]} ∪ ({["targets"]} ∪ ∅)).

(** The iterator of [tree] once [next] has returned the seed, and the
    roles that [targets] declares. *)
Definition after_seed : delegationsIterator :=
  mkIterator [] "f" ({["targets"]} ∪ ∅).

Definition tree_roles : list DelegatedRole :=
  [role "A" ["f"] false; role "M" ["g"] false; role "B" [] false].

(** A stack of [k] delegations to a role that has been visited. *)
Definition revisits (k : nat) : delegationsIterator :=
  mkIterator (repeat B_edge k) "f" {["B"]}.

(** The repository serves [A] at the pinned version, signed with the key
    of another role. *)
Definition forged : World :=
  {| w_docs :=
       [("targets", doc "targets" 1 [] [role "A" [] false]);
        ("A", {| doc_signers := ["k-M"];
                 doc_body := doc_body (doc "A" 1 [("f", meta 42)] []) |})];
     w_snapshot :=
       {| snapshot_Version := 5;
          snapshot_Meta := list_to_map [pin "targets" 1; pin "A" 1] |};
     w_now := 50 |}.

Definition forged_client (maxDelegations : Z) : Client :=
  client ["targets"; "A"] maxDelegations.

(** A role that gives both paths and path hash prefixes, on which the
    matcher fails; [targets] declares it between [A] and [B]. *)
Definition bad_role : DelegatedRole :=
  {| Name := "X"; KeyIDs := ["k-X"]; Threshold := 1; Terminating := false;
     PathHashPrefixes := ["ab"]; Paths := ["f"] |}.

Definition malformed : World :=
  {| w_docs :=
       [("targets", doc "targets" 1 []
           [role "A" ["f"] false; bad_role; role "B" [] false]);
        ("A", doc "A" 1 [("f", meta 42)] []);
        ("B", doc "B" 1 [("f", meta 43)] [])];
     w_snapshot :=
       {| snapshot_Version := 5;
          snapshot_Meta := list_to_map [pin "targets" 1; pin "A" 1; pin "B" 1] |};
     w_now := 50 |}.

Definition malformed_client (maxDelegations : Z) : Client :=
  client ["targets"; "A"; "B"] maxDelegations.

End Demo.

(** * Properties *)

Section Iterator.
Context {TY : Types} {CO : Collaborators}.

(** ** [next] *)

Lemma next_nil (t : string) (vis : gset string) :
  next (mkIterator [] t vis) = (None, mkIterator [] t vis).
Proof. reflexivity. Qed.

(** The equation of the source: pop, then skip by a self call or return. *)
Lemma next_snoc (s : list delegation) (x : delegation) (t : string)
    (vis : gset string) :
  next (mkIterator (s ++ [x]) t vis) =
    if decide (Name (delegatee x) ∈ vis) then next (mkIterator s t vis)
    else (Some x,
          mkIterator (if Terminating (delegatee x) then [] else s) t
            ({[Name (delegatee x)]} ∪ vis)).
Proof.
  unfold next. cbn [stack]. rewrite length_app, Nat.add_1_r.
  cbn [next_rec stack set_stack visitedRoles target].
  rewrite last_snoc, removelast_last.
  destruct (decide _) as [Hin|Hin]; [reflexivity|].
  destruct (Terminating (delegatee x)); reflexivity.
Qed.

Lemma next_frames_nil (t : string) (vis : gset string) :
  next_frames (mkIterator [] t vis) = 1%nat.
Proof. reflexivity. Qed.

Lemma next_frames_snoc (s : list delegation) (x : delegation) (t : string)
    (vis : gset string) :
  next_frames (mkIterator (s ++ [x]) t vis) =
    if decide (Name (delegatee x) ∈ vis)
    then S (next_frames (mkIterator s t vis)) else 1%nat.
Proof.
  unfold next_frames. cbn [stack]. rewrite length_app, Nat.add_1_r.
  cbn [next_frames_rec stack set_stack visitedRoles target].
  rewrite last_snoc, removelast_last. reflexivity.
Qed.

Lemma iterator_eta (it : delegationsIterator) :
  it = mkIterator (stack it) (target it) (visitedRoles it).
Proof. destruct it; reflexivity. Qed.

(** What [next] returns was on the stack and had not been visited; it is
    visited afterwards, and a terminating delegation leaves no stack. *)
Lemma next_Some (it it' : delegationsIterator) (d : delegation) :
  next it = (Some d, it') ->
  d ∈ stack it /\
  (Name (delegatee d) ∉ visitedRoles it) /\
  visitedRoles it' = {[Name (delegatee d)]} ∪ visitedRoles it /\
  target it' = target it /\
  (Terminating (delegatee d) = true -> stack it' = []) /\
  (forall e, e ∈ stack it' -> e ∈ stack it).
Proof.
  destruct it as [s t vis]. cbn [stack target visitedRoles].
  induction s as [|x s IH] using rev_ind; intros Hn.
  - rewrite next_nil in Hn. discriminate.
  - rewrite next_snoc in Hn. destruct (decide _) as [Hin|Hin].
    + destruct (IH Hn) as (H1 & H2 & H3 & H4 & H6 & H7).
      repeat split; auto.
      * apply elem_of_app; auto.
      * intros e He. apply elem_of_app; auto.
    + injection Hn as <- <-. cbn [stack target visitedRoles].
      repeat split; auto.
      * apply elem_of_app. right. apply list_elem_of_singleton. reflexivity.
      * intros ->. reflexivity.
      * intros e He. destruct (Terminating (delegatee x)).
        -- apply elem_of_nil in He. contradiction.
        -- apply elem_of_app; auto.
Qed.

(** [next] returns nothing exactly when all that is left has been visited;
    the stack is empty afterwards. *)
Lemma next_None (it it' : delegationsIterator) :
  next it = (None, it') ->
  it' = set_stack it [] /\
  Forall (fun d => Name (delegatee d) ∈ visitedRoles it) (stack it).
Proof.
  destruct it as [s t vis]. unfold set_stack. cbn [stack target visitedRoles].
  induction s as [|x s IH] using rev_ind; intros Hn.
  - rewrite next_nil in Hn. injection Hn as <-. split; [reflexivity|constructor].
  - rewrite next_snoc in Hn. destruct (decide _) as [Hin|Hin]; [|discriminate].
    destruct (IH Hn) as [-> HF]. split; [reflexivity|].
    apply Forall_app. split; [assumption|]. constructor; [assumption|constructor].
Qed.

(** Delegations below the ones [next] looks at stay where they are, unless
    the delegation returned is terminating; they are looked at when nothing
    above them is left. *)
Lemma next_below (below s : list delegation) (t : string) (vis : gset string) :
  next (mkIterator (below ++ s) t vis) =
    match next (mkIterator s t vis) with
    | (Some d, it') =>
        (Some d,
         if Terminating (delegatee d) then it'
         else set_stack it' (below ++ stack it'))
    | (None, _) => next (mkIterator below t vis)
    end.
Proof.
  induction s as [|x s IH] using rev_ind.
  - rewrite app_nil_r, next_nil. reflexivity.
  - rewrite app_assoc, !next_snoc. destruct (decide _) as [Hin|Hin].
    + exact IH.
    + destruct (Terminating (delegatee x)); reflexivity.
Qed.

(** ** [add] *)

Lemma add_loop_below (rr : list DelegatedRole) (below s : list delegation)
    (t : string) (vis : gset string) (dl : string) (v : DelegationsVerifier) :
  add_loop rr (mkIterator (below ++ s) t vis) dl v =
    (fst (add_loop rr (mkIterator s t vis) dl v),
     set_stack (snd (add_loop rr (mkIterator s t vis) dl v))
       (below ++ stack (snd (add_loop rr (mkIterator s t vis) dl v)))).
Proof.
  revert s. induction rr as [|r rr IH]; intros s; cbn [add_loop target stack].
  - reflexivity.
  - destruct (MatchesPath r t) as [err|[|]]; cbn [fst snd stack set_stack];
      try reflexivity.
    + unfold set_stack at 1 2. cbn [stack target visitedRoles].
      rewrite <- app_assoc. apply IH.
    + apply IH.
Qed.

(** Whatever [add] returns, it has only appended delegations whose role
    matches the target, built from its arguments. *)
Lemma add_loop_inv (rr : list DelegatedRole) (it it' : delegationsIterator)
    (dl : string) (v : DelegationsVerifier) (e : option error) :
  add_loop rr it dl v = (e, it') ->
  target it' = target it /\ visitedRoles it' = visitedRoles it /\
  exists pushed,
    stack it' = stack it ++ pushed /\
    Forall (fun d => MatchesPath (delegatee d) (target it) = inr true /\
                     delegator d = dl /\ verifier d = v /\
                     In (delegatee d) rr) pushed.
Proof.
  revert it. induction rr as [|r rr IH]; intros it; cbn [add_loop].
  - intros [= <- <-]. repeat split. exists []. rewrite app_nil_r.
    split; [reflexivity|constructor].
  - destruct (MatchesPath r (target it)) as [err|b] eqn:Hm.
    + intros [= <- <-]. repeat split. exists []. rewrite app_nil_r.
      split; [reflexivity|constructor].
    + intros Ha. apply IH in Ha as (Ht & Hv & pushed & Hs & HF).
      destruct b; cbn [set_stack target visitedRoles stack] in *.
      * repeat split; auto.
        exists ({| delegator := dl; delegatee := r; verifier := v |} :: pushed).
        split; [rewrite Hs, <- app_assoc; reflexivity|].
        constructor; [cbn; auto|].
        eapply Forall_impl; [exact HF|]. cbn. intros d (?&?&?&?); auto.
      * repeat split; auto. exists pushed. split; [assumption|].
        eapply Forall_impl; [exact HF|]. cbn. intros d (?&?&?&?); auto.
Qed.

(** When the matcher fails on no role, [add] appends exactly the matching
    ones, in the order in which it goes through them. *)
Lemma add_loop_ok (rr : list DelegatedRole) (s : list delegation) (t : string)
    (vis : gset string) (dl : string) (v : DelegationsVerifier) :
  Forall (fun r => exists b, MatchesPath r t = inr b) rr ->
  add_loop rr (mkIterator s t vis) dl v =
    (None, mkIterator (s ++ map (edge dl v) (List.filter (is_match t) rr)) t vis).
Proof.
  revert s. induction rr as [|r rr IH]; intros s HF; cbn [add_loop target].
  - cbn. rewrite app_nil_r. reflexivity.
  - inversion HF as [|? ? [b Hb] HF']; subst.
    cbn [List.filter]. unfold is_match at 1. rewrite Hb.
    destruct b; unfold set_stack; cbn [stack target visitedRoles].
    + rewrite IH by assumption. cbn [map]. rewrite <- app_assoc. reflexivity.
    + apply IH. assumption.
Qed.

(** [add] fails exactly when the matcher fails on some role, with the
    matcher's error. *)
Lemma add_loop_None (rr : list DelegatedRole) (it it' : delegationsIterator)
    (dl : string) (v : DelegationsVerifier) :
  add_loop rr it dl v = (None, it') ->
  Forall (fun r => exists b, MatchesPath r (target it) = inr b) rr.
Proof.
  revert it. induction rr as [|r rr IH]; intros it; cbn [add_loop].
  - constructor.
  - destruct (MatchesPath r (target it)) as [err|b] eqn:Hm; [discriminate|].
    intros Ha. constructor; [eauto|].
    apply IH in Ha. destruct b; exact Ha.
Qed.

Lemma add_loop_Some (rr : list DelegatedRole) (it it' : delegationsIterator)
    (dl : string) (v : DelegationsVerifier) (e : error) :
  add_loop rr it dl v = (Some e, it') ->
  exists r err, In r rr /\ MatchesPath r (target it) = inl err /\
                e = ErrExternal err.
Proof.
  revert it. induction rr as [|r rr IH]; intros it; cbn [add_loop].
  - discriminate.
  - destruct (MatchesPath r (target it)) as [err|b] eqn:Hm.
    + intros [= <- <-]. exists r, err. cbn. auto.
    + intros Ha. apply IH in Ha as (r' & err & Hin & Hm' & ->).
      exists r', err. split; [right; assumption|].
      split; [|reflexivity]. destruct b; exact Hm'.
Qed.

Lemma filter_rev {A : Type} (f : A -> bool) (l : list A) :
  List.filter f (rev l) = rev (List.filter f l).
Proof.
  induction l as [|a l IH]; [reflexivity|]. cbn [rev List.filter].
  rewrite List.filter_app, IH. cbn [List.filter].
  destruct (f a); cbn [rev]; [reflexivity|]. rewrite app_nil_r. reflexivity.
Qed.

Lemma add_ok (roles : list DelegatedRole) (s : list delegation) (t : string)
    (vis : gset string) (dl : string) (v : DelegationsVerifier) :
  Forall (fun r => exists b, MatchesPath r t = inr b) roles ->
  add (mkIterator s t vis) roles dl v =
    (None, mkIterator (s ++ rev (matching_edges t roles dl v)) t vis).
Proof.
  intros HF. unfold add, matching_edges. rewrite add_loop_ok.
  - rewrite filter_rev, map_rev. reflexivity.
  - apply Forall_forall. intros r Hr. rewrite Forall_forall in HF.
    apply HF. apply list_elem_of_In, in_rev. apply list_elem_of_In. exact Hr.
Qed.

Lemma add_None (it it2 : delegationsIterator) (roles : list DelegatedRole)
    (dl : string) (v : DelegationsVerifier) :
  add it roles dl v = (None, it2) ->
  it2 = set_stack it (stack it ++ rev (matching_edges (target it) roles dl v)).
Proof.
  intros Ha. pose proof Ha as Hok. apply add_loop_None in Hok.
  rewrite (iterator_eta it) in Ha. rewrite add_ok in Ha.
  - injection Ha as <-. reflexivity.
  - apply Forall_forall. intros r Hr. rewrite Forall_forall in Hok.
    apply Hok. apply list_elem_of_In, in_rev. rewrite rev_involutive.
    apply list_elem_of_In. exact Hr.
Qed.

(** ** Terminating delegations *)

(** C1, as amended. When [next] returns a terminating delegation the stack
    is empty: whatever was pending, on any branch, is dropped, and the call
    returns the same with any further delegations below. What [add] is
    given afterwards is pushed on the empty stack, and the next call of
    [next] returns the first declared matching role that has not been
    visited. *)
Theorem C1_terminating_clears_pending (it it' : delegationsIterator)
    (d : delegation) :
  next it = (Some d, it') ->
  Terminating (delegatee d) = true ->
  stack it' = [] /\
  (forall below, next (set_stack it (below ++ stack it)) = (Some d, it')) /\
  (forall roles dl v it2,
     add it' roles dl v = (None, it2) ->
     stack it2 = rev (matching_edges (target it) roles dl v) /\
     forall r rs,
       List.filter (is_match (target it)) roles = r :: rs ->
       Name r ∉ visitedRoles it' ->
       fst (next it2) = Some (edge dl v r)).
Proof.
  intros Hn Hterm. apply next_Some in Hn as Hs.
  destruct Hs as (_ & _ & _ & Ht & Hclear & _). specialize (Hclear Hterm).
  split; [exact Hclear|]. split.
  - intros below. unfold set_stack. rewrite next_below.
    rewrite <- iterator_eta, Hn, Hterm. reflexivity.
  - intros roles dl v it2 Ha. apply add_None in Ha. subst it2.
    rewrite Hclear, Ht. cbn [set_stack stack app]. split; [reflexivity|].
    intros r rs Hf Hfresh. unfold set_stack, matching_edges. rewrite Hf.
    cbn [map rev]. rewrite next_snoc. cbn [edge delegatee].
    destruct (decide _) as [Hin|_]; [contradiction|reflexivity].
Qed.

(** ** The depth of [next] *)

Lemma next_frames_run (it : delegationsIterator) :
  next_frames it = S (visited_run (rev (stack it)) (visitedRoles it)).
Proof.
  destruct it as [s t vis]. cbn [stack visitedRoles].
  induction s as [|x s IH] using rev_ind; [reflexivity|].
  rewrite next_frames_snoc, rev_app_distr. cbn [rev app visited_run].
  destruct (decide _); [rewrite IH|]; reflexivity.
Qed.

Lemma visited_run_le (rs : list delegation) (vis : gset string) :
  (visited_run rs vis <= length rs)%nat.
Proof.
  induction rs as [|x rs IH]; cbn [visited_run length]; [lia|].
  destruct (decide _); lia.
Qed.

Lemma visited_run_all (rs : list delegation) (vis : gset string) :
  Forall (fun d => Name (delegatee d) ∈ vis) rs ->
  visited_run rs vis = length rs.
Proof.
  induction 1 as [|x rs Hx _ IH]; cbn [visited_run length]; [reflexivity|].
  destruct (decide _); [rewrite IH; reflexivity|contradiction].
Qed.

(** C9, as amended. [next] skips a visited delegation by calling itself:
    one call opens one activation more than there are visited delegations
    in a row on top of the stack, which the length of the stack bounds and
    which a stack of visited delegations reaches. *)
Theorem C9_next_depth (it : delegationsIterator) :
  next_frames it = S (visited_run (rev (stack it)) (visitedRoles it)) /\
  (next_frames it <= S (length (stack it)))%nat /\
  (Forall (fun d => Name (delegatee d) ∈ visitedRoles it) (stack it) ->
   next_frames it = S (length (stack it))).
Proof.
  rewrite next_frames_run. split; [reflexivity|]. split.
  - pose proof (visited_run_le (rev (stack it)) (visitedRoles it)) as Hle.
    rewrite length_rev in Hle. lia.
  - intros HF. rewrite visited_run_all, length_rev; [reflexivity|].
    apply Forall_forall. intros d Hd. rewrite Forall_forall in HF. apply HF.
    apply list_elem_of_In, in_rev. apply list_elem_of_In. exact Hd.
Qed.

End Iterator.

Section Resolver.
Context {TY : Types} {CO : Collaborators}.

(** ** [loadDelegatedTargets] *)

Ltac case_load :=
  unfold loadDelegatedTargets;
  destruct (snapshot_Meta _ !! _) as [fileMeta|] eqn:Hmeta;
  [ destruct (localMetaFromSnapshot _ _ fileMeta) as [raw0 alreadyStored] eqn:Hlocal;
    destruct alreadyStored;
    [ | destruct (downloadMetaFromSnapshot _ _ fileMeta) as [derr|raw] eqn:Hdown ]
  | ].

Lemma loadDelegatedTargets_client (c c' : Client) (snapshot : Snapshot)
    (role : string) (v : DelegationsVerifier) (r : error + Targets) :
  loadDelegatedTargets c snapshot role v = (r, c') ->
  c' = c \/ exists l, c' = set_local c l.
Proof.
  case_load.
  - destruct (if decide _ then _ else _); intros [= <- <-]; auto.
  - intros [= <- <-]; auto.
  - destruct (if decide _ then _ else _); [intros [= <- <-]; auto|].
    destruct (SetMeta _ _ _) as [[e|] l]; intros [= <- <-]; eauto.
  - intros [= <- <-]; auto.
Qed.

Lemma loadDelegatedTargets_MaxDelegations (c c' : Client) (snapshot : Snapshot)
    (role : string) (v : DelegationsVerifier) (r : error + Targets) :
  loadDelegatedTargets c snapshot role v = (r, c') ->
  MaxDelegations c' = MaxDelegations c.
Proof.
  intros Hl. apply loadDelegatedTargets_client in Hl as [->|[l ->]]; reflexivity.
Qed.

Lemma loadDelegatedTargets_error (c c' : Client) (snapshot : Snapshot)
    (role : string) (v : DelegationsVerifier) (e : error) :
  loadDelegatedTargets c snapshot role v = (inl e, c') -> load_error e.
Proof.
  case_load.
  - destruct (if decide _ then _ else _); intros [= <- <-]; exact I.
  - intros [= <- <-]; exact I.
  - destruct (if decide _ then _ else _); [intros [= <- <-]; exact I|].
    destruct (SetMeta _ _ _) as [[e'|] l]; intros [= <- <-]; exact I.
  - intros [= <- <-]; exact I.
Qed.

(** [loadDelegatedTargets], stage by stage. *)
Lemma loadDelegatedTargets_eq (c : Client) (snapshot : Snapshot)
    (role : string) (v : DelegationsVerifier) :
  loadDelegatedTargets c snapshot role v =
    match snapshot_Meta snapshot !! (role +:+ ".json") with
    | None => (inl (ErrRoleNotInSnapshot role (snapshot_Version snapshot)), c)
    | Some fileMeta =>
        match obtained c (role +:+ ".json") fileMeta with
        | inl err => (inl (ErrExternal err), c)
        | inr raw =>
            match unmarshal c role v raw fileMeta with
            | inl err => (inl (ErrDecodeFailed (role +:+ ".json") err), c)
            | inr targets =>
                if snd (localMetaFromSnapshot c (role +:+ ".json") fileMeta)
                then (inr targets, c)
                else
                  (match fst (SetMeta (local c) (role +:+ ".json") raw) with
                   | Some err => inl (ErrExternal err)
                   | None => inr targets
                   end,
                   set_local c (snd (SetMeta (local c) (role +:+ ".json") raw)))
            end
        end
    end.
Proof.
  unfold loadDelegatedTargets, obtained, unmarshal.
  destruct (snapshot_Meta snapshot !! _) as [fileMeta|]; [|reflexivity].
  destruct (localMetaFromSnapshot _ _ fileMeta) as [raw0 [|]]; cbn [fst snd].
  - destruct (if decide _ then _ else _); reflexivity.
  - destruct (downloadMetaFromSnapshot _ _ _) as [e|raw]; [reflexivity|].
    destruct (if decide _ then _ else _); [reflexivity|].
    destruct (SetMeta _ _ _) as [[e|] l]; reflexivity.
Qed.

(** C7. [loadDelegatedTargets] leaves the client, and so its local store,
    as it was when the role is not in the snapshot, when the download
    fails, when the verifier rejects the bytes, and when the bytes came
    from the local store; it calls [SetMeta], with the bytes it downloaded,
    only after the verifier has accepted them, and returns the decoded
    targets only when [SetMeta] did not fail. *)
Theorem C7_persists_after_verification (c c' : Client) (snapshot : Snapshot)
    (role : string) (v : DelegationsVerifier) (r : error + Targets) :
  loadDelegatedTargets c snapshot role v = (r, c') ->
  let fileName := role +:+ ".json" in
  (snapshot_Meta snapshot !! fileName = None -> c' = c) /\
  (forall fileMeta,
     snapshot_Meta snapshot !! fileName = Some fileMeta ->
     (forall err, obtained c fileName fileMeta = inl err ->
        c' = c /\ r = inl (ErrExternal err)) /\
     (forall raw err,
        obtained c fileName fileMeta = inr raw ->
        unmarshal c role v raw fileMeta = inl err ->
        c' = c /\ r = inl (ErrDecodeFailed fileName err)) /\
     (snd (localMetaFromSnapshot c fileName fileMeta) = true -> c' = c)) /\
  (c' = c \/
   exists fileMeta raw targets,
     snapshot_Meta snapshot !! fileName = Some fileMeta /\
     snd (localMetaFromSnapshot c fileName fileMeta) = false /\
     downloadMetaFromSnapshot c fileName fileMeta = inr raw /\
     unmarshal c role v raw fileMeta = inr targets /\
     c' = set_local c (snd (SetMeta (local c) fileName raw)) /\
     r = match fst (SetMeta (local c) fileName raw) with
         | Some err => inl (ErrExternal err)
         | None => inr targets
         end).
Proof.
  rewrite loadDelegatedTargets_eq. intros Hl fileName. fold fileName in Hl.
  destruct (snapshot_Meta snapshot !! fileName) as [fileMeta|] eqn:Hmeta.
  2: { injection Hl as <- <-. split; [reflexivity|]. split; [discriminate|].
       left; reflexivity. }
  split; [discriminate|].
  destruct (obtained c fileName fileMeta) as [e|raw] eqn:Ho.
  { injection Hl as <- <-. split; [|left; reflexivity].
    intros fm [= <-]. repeat (split || intro); congruence. }
  destruct (unmarshal c role v raw fileMeta) as [e|targets] eqn:Hu.
  { injection Hl as <- <-. split; [|left; reflexivity].
    intros fm [= <-]. repeat (split || intro); congruence. }
  destruct (snd (localMetaFromSnapshot c fileName fileMeta)) eqn:Hs.
  { injection Hl as <- <-. split; [|left; reflexivity].
    intros fm [= <-]. repeat (split || intro); congruence. }
  injection Hl as <- <-. split.
  - intros fm [= <-]. repeat (split || intro); congruence.
  - right. exists fileMeta, raw, targets. repeat split; auto.
    unfold obtained in Ho. rewrite Hs in Ho. exact Ho.
Qed.

(** ** One pass through the loop *)

(** A pass reaches the end of the body when [next] returned a delegation,
    its metadata was loaded and does not list the target, and its
    delegations, if any, were added. *)
Lemma loop_body_Continue (snapshot : Snapshot) (tgt : string) (c c' : Client)
    (it it' : delegationsIterator) :
  loop_body snapshot tgt c it = (Continue, c', it') ->
  exists d it1 targets,
    next it = (Some d, it1) /\
    loadDelegatedTargets c snapshot (Name (delegatee d)) (verifier d)
      = (inr targets, c') /\
    targets_Targets targets !! tgt = None /\
    ((targets_Delegations targets = None /\ it' = it1) \/
     (exists dels dv,
        targets_Delegations targets = Some dels /\
        NewDelegationsVerifier dels = inr dv /\
        add it1 (Roles dels) (Name (delegatee d)) dv = (None, it'))).
Proof.
  unfold loop_body.
  destruct (next it) as [[d|] it1] eqn:Hn; [|discriminate].
  destruct (loadDelegatedTargets _ _ _ _) as [[err|targets] c1] eqn:Hl;
    [discriminate|].
  destruct (targets_Targets targets !! tgt) eqn:Ht; [discriminate|].
  destruct (targets_Delegations targets) as [dels|] eqn:Hd.
  - destruct (NewDelegationsVerifier dels) as [err|dv] eqn:Hv; [discriminate|].
    destruct (add it1 _ _ _) as [[err|] it2] eqn:Ha; [discriminate|].
    intros [= <- <-]. exists d, it1, targets. repeat split; auto.
    right. exists dels, dv. auto.
  - intros [= <- <-]. exists d, it1, targets. repeat split; auto.
Qed.

(** The body returns [ErrUnknownTarget] only when [next] has nothing left,
    and never returns [ErrMaxDelegations]. *)
Lemma loop_body_Return (snapshot : Snapshot) (tgt : string) (c c' : Client)
    (it it' : delegationsIterator) (r : error + TargetFileMeta) :
  loop_body snapshot tgt c it = (Return r, c', it') ->
  ((fst (next it) = None /\
    r = inl (ErrUnknownTarget tgt (snapshot_Version snapshot)) /\ c' = c) \/
   (is_Some (fst (next it)) /\
    (forall t v, r <> inl (ErrUnknownTarget t v)))) /\
  (forall t m v, r <> inl (ErrMaxDelegations t m v)).
Proof.
  unfold loop_body.
  destruct (next it) as [[d|] it1] eqn:Hn; cbn [fst].
  - destruct (loadDelegatedTargets _ _ _ _) as [[err|targets] c1] eqn:Hl.
    { apply loadDelegatedTargets_error in Hl.
      intros [= <- <- <-]. split; [right; split; [eauto|]|];
        intros; intros [= ->]; exact Hl. }
    destruct (targets_Targets targets !! tgt) eqn:Ht.
    { intros [= <- <- <-]. split; [right; split; [eauto|]|]; discriminate. }
    destruct (targets_Delegations targets) as [dels|] eqn:Hd; [|discriminate].
    destruct (NewDelegationsVerifier dels) as [err|dv] eqn:Hv.
    { intros [= <- <- <-]. split; [right; split; [eauto|]|]; discriminate. }
    destruct (add it1 _ _ _) as [[err|] it2] eqn:Ha; [|discriminate].
    apply add_loop_Some in Ha as (r' & e' & _ & _ & ->).
    intros [= <- <- <-]. split; [right; split; [eauto|]|]; discriminate.
  - intros [= <- <- <-]. split; [left; auto|discriminate].
Qed.

Lemma loop_body_MaxDelegations (snapshot : Snapshot) (tgt : string)
    (c c' : Client) (it it' : delegationsIterator) (f : flow) :
  loop_body snapshot tgt c it = (f, c', it') ->
  MaxDelegations c' = MaxDelegations c.
Proof.
  unfold loop_body.
  destruct (next it) as [[d|] it1] eqn:Hn; [|intros [= <- <- <-]; reflexivity].
  destruct (loadDelegatedTargets _ _ _ _) as [[err|targets] c1] eqn:Hl;
    apply loadDelegatedTargets_MaxDelegations in Hl.
  { intros [= <- <- <-]. exact Hl. }
  destruct (targets_Targets targets !! tgt); [intros [= <- <- <-]; exact Hl|].
  destruct (targets_Delegations targets) as [dels|];
    [|intros [= <- <- <-]; exact Hl].
  destruct (NewDelegationsVerifier dels); [intros [= <- <- <-]; exact Hl|].
  destruct (add it1 _ _ _) as [[err|] it2]; intros [= <- <- <-]; exact Hl.
Qed.

(** ** The loop *)

Lemma iterations_for_loop (k : nat) (snapshot : Snapshot) (tgt : string)
    (c c' : Client) (it it' : delegationsIterator) :
  iterations k snapshot tgt c it = Some (c', it') ->
  forall n, for_loop (k + n) snapshot tgt c it = for_loop n snapshot tgt c' it'.
Proof.
  revert c it. induction k as [|k IH]; intros c it; cbn [iterations].
  - intros [= <- <-] n. reflexivity.
  - destruct (loop_body snapshot tgt c it) as [[[r|] c1] it1] eqn:Hb;
      [discriminate|].
    intros Hi n. cbn [Nat.add for_loop]. rewrite Hb. apply IH. exact Hi.
Qed.

Lemma iterations_loads (k : nat) (snapshot : Snapshot) (tgt : string)
    (c c' : Client) (it it' : delegationsIterator) :
  iterations k snapshot tgt c it = Some (c', it') ->
  length (loads k snapshot tgt c it) = k /\
  forall n, loads (k + n) snapshot tgt c it =
              loads k snapshot tgt c it ++ loads n snapshot tgt c' it'.
Proof.
  revert c it. induction k as [|k IH]; intros c it; cbn [iterations].
  - intros [= <- <-]. split; reflexivity.
  - destruct (loop_body snapshot tgt c it) as [[[r|] c1] it1] eqn:Hb;
      [discriminate|].
    intros Hi. destruct (IH _ _ Hi) as [Hlen Happ].
    apply loop_body_Continue in Hb as Hc.
    destruct Hc as (d & it2 & targets & Hn & _).
    cbn [Nat.add loads]. rewrite Hn, Hb. cbn [length app]. split.
    + rewrite Hlen. reflexivity.
    + intros n. rewrite Happ. reflexivity.
Qed.

Lemma iterations_MaxDelegations (k : nat) (snapshot : Snapshot) (tgt : string)
    (c c' : Client) (it it' : delegationsIterator) :
  iterations k snapshot tgt c it = Some (c', it') ->
  MaxDelegations c' = MaxDelegations c.
Proof.
  revert c it. induction k as [|k IH]; intros c it; cbn [iterations].
  - intros [= <- <-]. reflexivity.
  - destruct (loop_body snapshot tgt c it) as [[[r|] c1] it1] eqn:Hb;
      [discriminate|].
    intros Hi. rewrite (IH _ _ Hi). eapply loop_body_MaxDelegations. exact Hb.
Qed.

(** The loop either makes all its passes, or returns from the body of
    pass [k] for some [k] below the bound. *)
Lemma for_loop_cases (n : nat) (snapshot : Snapshot) (tgt : string)
    (c : Client) (it : delegationsIterator) :
  (exists c' it',
     iterations n snapshot tgt c it = Some (c', it') /\
     for_loop n snapshot tgt c it =
       (inl (ErrMaxDelegations tgt (MaxDelegations c) (snapshot_Version snapshot)),
        c', it')) \/
  (exists k ck itk r c' it',
     (k < n)%nat /\
     iterations k snapshot tgt c it = Some (ck, itk) /\
     loop_body snapshot tgt ck itk = (Return r, c', it') /\
     iterations (S k) snapshot tgt c it = None /\
     for_loop n snapshot tgt c it = (r, c', it')).
Proof.
  revert c it. induction n as [|n IH]; intros c it.
  - left. exists c, it. split; reflexivity.
  - cbn [for_loop iterations].
    destruct (loop_body snapshot tgt c it) as [[[r|] c1] it1] eqn:Hb.
    + right. exists 0%nat, c, it, r, c1, it1. cbn [iterations]. rewrite Hb.
      repeat split; auto. lia.
    + destruct (IH c1 it1) as [(c' & it' & Hi & Hf)|
                               (k & ck & itk & r & c' & it' & Hk & Hi & Hr & Hs & Hf)].
      * left. exists c', it'. split; [exact Hi|]. rewrite Hf.
        rewrite (loop_body_MaxDelegations _ _ _ _ _ _ _ Hb). reflexivity.
      * right. exists (S k), ck, itk, r, c', it'.
        cbn [iterations]. rewrite Hb. repeat split; auto. lia.
Qed.

Lemma iterations_None (j m : nat) (snapshot : Snapshot) (tgt : string)
    (c : Client) (it : delegationsIterator) :
  iterations j snapshot tgt c it = None ->
  iterations (j + m) snapshot tgt c it = None.
Proof.
  revert c it. induction j as [|j IH]; intros c it; cbn [Nat.add iterations].
  - discriminate.
  - destruct (loop_body snapshot tgt c it) as [[[r|] c2] it2];
      [reflexivity|]. apply IH.
Qed.

Lemma loadLocalSnapshot_error (c c1 : Client) (e : error) :
  loadLocalSnapshot c = (inl e, c1) ->
  (forall t v, e <> ErrUnknownTarget t v) /\
  (forall t m v, e <> ErrMaxDelegations t m v).
Proof.
  unfold loadLocalSnapshot. destruct (getLocalMeta c) as [[err|] c2].
  { intros [= <- <-]. split; discriminate. }
  destruct (localMeta c2 !! "snapshot.json").
  - destruct (db_Unmarshal_snapshot _ _ _ _); [|discriminate].
    intros [= <- <-]. split; discriminate.
  - intros [= <- <-]. split; discriminate.
Qed.

(** C5. [getTargetFileMeta] fails with [ErrUnknownTarget{target,
    snapshot.Version}] exactly when, with the local snapshot loaded, some
    pass [k] of the loop below the bound [c.MaxDelegations] is reached by
    [k] passes that did not return and finds [next] with nothing left; it
    fails with [ErrMaxDelegations{target, c.MaxDelegations,
    snapshot.Version}] exactly when all [c.MaxDelegations] passes are made
    without a return. *)
Theorem C5_unknown_target_and_bound (c : Client) (tgt : string) :
  (forall t v,
     fst (getTargetFileMeta c tgt) = inl (ErrUnknownTarget t v) <->
     exists snapshot c1,
       loadLocalSnapshot c = (inr snapshot, c1) /\
       t = tgt /\ v = snapshot_Version snapshot /\
       exists k ck itk,
         Z.of_nat k < MaxDelegations c1 /\
         iterations k snapshot tgt c1 (newDelegationsIterator tgt)
           = Some (ck, itk) /\
         fst (next itk) = None) /\
  (forall t m v,
     fst (getTargetFileMeta c tgt) = inl (ErrMaxDelegations t m v) <->
     exists snapshot c1,
       loadLocalSnapshot c = (inr snapshot, c1) /\
       t = tgt /\ m = MaxDelegations c1 /\ v = snapshot_Version snapshot /\
       is_Some (iterations (Z.to_nat (MaxDelegations c1)) snapshot tgt c1
                  (newDelegationsIterator tgt))).
Proof.
  unfold getTargetFileMeta.
  destruct (loadLocalSnapshot c) as [[e|snapshot] c1] eqn:Hs.
  { apply loadLocalSnapshot_error in Hs as [H1 H2]. cbn [fst].
    split; intros; (split; [intros [= ->]; exfalso; eauto|]).
    - exfalso. eapply H1. reflexivity.
    - intros (? & ? & [=] & _).
    - exfalso. eapply H2. reflexivity.
    - intros (? & ? & [=] & _). }
  set (n := Z.to_nat (MaxDelegations c1)).
  set (it0 := newDelegationsIterator tgt).
  destruct (for_loop_cases n snapshot tgt c1 it0)
    as [(c' & it' & Hi & Hf)|(k & ck & itk & r & c' & it' & Hk & Hi & Hr & Hn & Hf)];
    rewrite Hf; cbn [fst].
  - split; intros.
    + split; [discriminate|].
      intros (s' & c1' & [= <- <-] & -> & -> & k & ck & itk & Hk & Hik & Hnk).
      exfalso. assert (Hkn : (k < n)%nat) by (unfold n; lia).
      replace n with (k + S (n - S k))%nat in Hf by lia.
      rewrite (iterations_for_loop _ _ _ _ _ _ _ Hik) in Hf.
      cbn [for_loop] in Hf. unfold loop_body in Hf.
      destruct (next itk) as [[d|] it1]; [discriminate|]. discriminate.
    + split.
      * intros [= <- <- <-]. exists snapshot, c1. repeat split. eauto.
      * intros (s' & c1' & [= <- <-] & -> & -> & -> & _). reflexivity.
  - apply loop_body_Return in Hr as Hret. destruct Hret as [Hu Hm]. split; intros.
    + split.
      * intros [= ->]. destruct Hu as [(Hnone & [= -> ->] & ->)|[_ Hne]].
        -- exists snapshot, c1. repeat split; auto.
           exists k, ck, itk. repeat split; auto. unfold n in Hk. lia.
        -- exfalso. eapply Hne. reflexivity.
      * intros (s' & c1' & [= <- <-] & -> & -> & k' & ck' & itk' & Hk' & Hik & Hnk).
        assert (Hkn : (k' < n)%nat) by (unfold n; lia).
        replace n with (k' + S (n - S k'))%nat in Hf by lia.
        rewrite (iterations_for_loop _ _ _ _ _ _ _ Hik) in Hf.
        cbn [for_loop] in Hf. unfold loop_body in Hf.
        destruct (next itk') as [[d|] it1]; [discriminate|].
        injection Hf as <- _ _. reflexivity.
    + split.
      * intros [= ->]. exfalso. eapply Hm. reflexivity.
      * intros (s' & c1' & [= <- <-] & -> & -> & -> & [[ck' itk'] Hik]).
        exfalso. fold n in Hik. fold it0 in Hik.
        replace n with (S k + (n - S k))%nat in Hik by lia.
        rewrite (iterations_None _ _ _ _ _ _ Hn) in Hik. discriminate.
Qed.

(** ** The calls of [loadDelegatedTargets] *)

Lemma parented_mono (tgt : string)
    (log log' : list (delegation * (error + Targets))) (d : delegation) :
  (forall e, In e log -> In e log') ->
  parented tgt log d -> parented tgt log' d.
Proof.
  intros Hsub (p & targets & dels & Hin & Hrest).
  exists p, targets, dels. split; [apply Hsub; exact Hin|exact Hrest].
Qed.

(** After a pass that reached the end of the body, the stack holds what it
    held before and the matching delegations of the role just loaded. *)
Lemma loop_body_stack (snapshot : Snapshot) (tgt : string) (c c' : Client)
    (it it' : delegationsIterator) :
  target it = tgt ->
  loop_body snapshot tgt c it = (Continue, c', it') ->
  exists d it1 targets,
    next it = (Some d, it1) /\
    loadDelegatedTargets c snapshot (Name (delegatee d)) (verifier d)
      = (inr targets, c') /\
    target it' = tgt /\
    visitedRoles it' = {[Name (delegatee d)]} ∪ visitedRoles it /\
    (forall e, e ∈ stack it' ->
       e ∈ stack it1 \/ parented tgt [(d, inr targets)] e).
Proof.
  intros Ht Hb. apply loop_body_Continue in Hb.
  destruct Hb as (d & it1 & targets & Hn & Hl & _ & Hadd).
  exists d, it1, targets.
  apply next_Some in Hn as Hn'. destruct Hn' as (_ & _ & Hv & Ht1 & _ & _).
  split; [exact Hn|]. split; [exact Hl|].
  destruct Hadd as [[_ ->]|(dels & dv & Hd & Hv' & Ha)].
  - repeat split; auto. congruence.
  - apply add_loop_inv in Ha. destruct Ha as (Ht' & Hvis & pushed & Hst & HF).
    repeat split; [congruence|congruence|].
    intros e He. rewrite Hst in He. apply elem_of_app in He as [He|He]; [auto|].
    right. rewrite Forall_forall in HF. destruct (HF e He) as (Hm & Hdl & Hve & Hin).
    exists d, targets, dels. repeat split; auto.
    + left. reflexivity.
    + congruence.
    + apply in_rev. exact Hin.
    + congruence.
Qed.

(** No role name is passed twice, and none that the iterator had visited
    before. *)
Lemma loads_fresh (n : nat) (snapshot : Snapshot) (tgt : string) (c : Client)
    (it : delegationsIterator) :
  target it = tgt ->
  NoDup (names (loads n snapshot tgt c it)) /\
  Forall (fun x => x ∉ visitedRoles it) (names (loads n snapshot tgt c it)).
Proof.
  revert c it. induction n as [|n IH]; intros c it Ht; cbn [loads].
  - split; constructor.
  - destruct (next it) as [[d|] it1] eqn:Hn; [|split; constructor].
    apply next_Some in Hn as Hn'. destruct Hn' as (_ & Hfresh & _).
    destruct (loop_body snapshot tgt c it) as [[[r|] c'] it'] eqn:Hb.
    { cbn. split; [apply NoDup_singleton|]. constructor; [exact Hfresh|constructor]. }
    apply (loop_body_stack _ _ _ _ _ _ Ht) in Hb.
    destruct Hb as (d' & it1' & targets & Hn2 & _ & Ht' & Hvis & _).
    rewrite Hn in Hn2. injection Hn2 as <- <-.
    destruct (IH c' it' Ht') as [Hnd HF]. unfold names in *. cbn [map fst].
    rewrite Hvis in HF. split.
    + constructor; [|exact Hnd].
      intros Hin. rewrite Forall_forall in HF. apply (HF _ Hin).
      apply elem_of_union. left. apply elem_of_singleton. reflexivity.
    + constructor; [exact Hfresh|].
      eapply Forall_impl; [exact HF|]. cbn. intros x Hx Hc. apply Hx.
      apply elem_of_union. right. exact Hc.
Qed.

(** Every delegation passed after the first pass was added for an earlier
    call. *)
Lemma loads_parented (n : nat) (snapshot : Snapshot) (tgt : string)
    (c : Client) (it : delegationsIterator)
    (pre : list (delegation * (error + Targets))) :
  target it = tgt ->
  (forall e, e ∈ stack it -> parented tgt pre e) ->
  forall l1 e l2,
    loads n snapshot tgt c it = l1 ++ e :: l2 ->
    parented tgt (pre ++ l1) (fst e).
Proof.
  revert c it pre. induction n as [|n IH]; intros c it pre Ht Hst l1 e l2;
    cbn [loads].
  - destruct l1; discriminate.
  - destruct (next it) as [[d|] it1] eqn:Hn; [|destruct l1; discriminate].
    apply next_Some in Hn as Hn'. destruct Hn' as (Hin & _ & _ & _ & _ & Hsub).
    destruct l1 as [|e1 l1]; cbn [app].
    { intros [= <- _]. rewrite app_nil_r. cbn [fst]. apply Hst. exact Hin. }
    intros [= <- Hrest].
    destruct (loop_body snapshot tgt c it) as [[[r|] c'] it'] eqn:Hb.
    { destruct l1; discriminate. }
    apply (loop_body_stack _ _ _ _ _ _ Ht) in Hb.
    destruct Hb as (d' & it1' & targets & Hn2 & Hl & Ht' & _ & Hpush).
    rewrite Hn in Hn2. injection Hn2 as <- <-. rewrite Hl in *. cbn [fst] in *.
    replace (pre ++ (d, inr targets) :: l1)
      with ((pre ++ [(d, inr targets)]) ++ l1)
      by (rewrite <- app_assoc; reflexivity).
    eapply (IH c' it'); [exact Ht'| |exact Hrest].
    intros e' He'. destruct (Hpush e' He') as [Hold|Hnew].
    + eapply parented_mono; [|apply Hst, Hsub, Hold].
      intros x Hx. apply in_or_app. left. exact Hx.
    + eapply parented_mono; [|exact Hnew].
      intros x Hx. apply in_or_app. right. exact Hx.
Qed.

(** Every entry records a call made on a client with the same trust
    database. *)
Lemma loads_results (n : nat) (snapshot : Snapshot) (tgt : string)
    (c : Client) (it : delegationsIterator) :
  Forall (fun e =>
            exists ck, db ck = db c /\
              snd e = fst (loadDelegatedTargets ck snapshot
                             (Name (delegatee (fst e))) (verifier (fst e))))
         (loads n snapshot tgt c it).
Proof.
  revert c it. induction n as [|n IH]; intros c it; cbn [loads].
  - constructor.
  - destruct (next it) as [[d|] it1] eqn:Hn; [|constructor].
    constructor; [exists c; split; reflexivity|].
    destruct (loop_body snapshot tgt c it) as [[[r|] c'] it'] eqn:Hb;
      [constructor|].
    apply loop_body_Continue in Hb.
    destruct Hb as (d' & it1' & targets & _ & Hl & _).
    apply loadDelegatedTargets_client in Hl.
    eapply Forall_impl; [apply IH|]. cbn. intros e (ck & Hdb & He).
    exists ck. split; [|exact He]. rewrite Hdb.
    destruct Hl as [->|[l ->]]; reflexivity.
Qed.

(** Metadata is returned only when the verifier chosen by the role name
    has accepted the bytes at the version the snapshot pins. *)
Lemma loadDelegatedTargets_accepted (c : Client) (snapshot : Snapshot)
    (role : string) (v : DelegationsVerifier) (targets : Targets) :
  fst (loadDelegatedTargets c snapshot role v) = inr targets ->
  exists fileMeta raw,
    snapshot_Meta snapshot !! (role +:+ ".json") = Some fileMeta /\
    obtained c (role +:+ ".json") fileMeta = inr raw /\
    unmarshal c role v raw fileMeta = inr targets.
Proof.
  rewrite loadDelegatedTargets_eq.
  destruct (snapshot_Meta snapshot !! _) as [fileMeta|]; [|discriminate].
  destruct (obtained c _ fileMeta) as [e|raw] eqn:Ho; [discriminate|].
  destruct (unmarshal c role v raw fileMeta) as [e|t] eqn:Hu; [discriminate|].
  destruct (snd (localMetaFromSnapshot c _ fileMeta)); cbn [fst].
  - intros [= <-]. eauto.
  - destruct (fst (SetMeta _ _ _)); [discriminate|]. intros [= <-]. eauto.
Qed.

Lemma next_new (tgt : string) :
  next (newDelegationsIterator tgt) =
    (Some seed, mkIterator [] tgt ({["targets"]} ∪ ∅)).
Proof.
  unfold newDelegationsIterator. change [seed] with ([] ++ [seed]).
  rewrite next_snoc. destruct (decide _) as [Hin|_]; [|reflexivity].
  apply not_elem_of_empty in Hin. contradiction.
Qed.

(** A resolution starts with the seed; all that follows was added for an
    earlier call and is not named [targets]. *)
Lemma loads_from_seed (n : nat) (snapshot : Snapshot) (tgt : string)
    (c : Client) :
  loads n snapshot tgt c (newDelegationsIterator tgt) = [] \/
  exists rest,
    loads n snapshot tgt c (newDelegationsIterator tgt) =
      (seed, fst (loadDelegatedTargets c snapshot "targets"
                    DelegationsVerifier_zero)) :: rest /\
    Forall (fun x => x <> "targets") (names rest) /\
    forall l1 e l2,
      rest = l1 ++ e :: l2 ->
      parented tgt
        ((seed, fst (loadDelegatedTargets c snapshot "targets"
                       DelegationsVerifier_zero)) :: l1) (fst e).
Proof.
  destruct n as [|n]; [left; reflexivity|]. right. cbn [loads].
  rewrite next_new. cbn [seed delegatee verifier DelegatedRole_named Name].
  destruct (loop_body snapshot tgt c (newDelegationsIterator tgt))
    as [[[r|] c'] it'] eqn:Hb.
  { exists []. repeat split; [constructor|]. intros [|? ?] ? ?; discriminate. }
  apply loop_body_stack in Hb; [|reflexivity].
  destruct Hb as (d & it1 & targets & Hn & Hl & Ht' & Hvis & Hpush).
  rewrite next_new in Hn. injection Hn as <- <-.
  cbn [seed delegatee verifier DelegatedRole_named Name] in Hl, Hvis.
  exists (loads n snapshot tgt c' it'). split; [reflexivity|]. split.
  - destruct (loads_fresh n snapshot tgt c' it' Ht') as [_ HF].
    eapply Forall_impl; [exact HF|]. cbn. intros x Hx ->. apply Hx.
    rewrite Hvis. apply elem_of_union. left. apply elem_of_singleton.
    reflexivity.
  - intros l1 e l2 Hrest. rewrite Hl. cbn [fst].
    change ((seed, inr targets) :: l1) with ([(seed, @inr error _ targets)] ++ l1).
    eapply loads_parented; [exact Ht'| |exact Hrest].
    intros e' He'. destruct (Hpush e' He') as [Hold|Hnew]; [|exact Hnew].
    cbn [stack] in Hold. apply elem_of_nil in Hold. contradiction.
Qed.

(** C2. In one resolution no role name is passed to [loadDelegatedTargets]
    twice, whatever the branches on which it is declared; when the roles
    met are named [A] or [B] only, as in a cycle of two roles, at most two
    roles are loaded, and with a bound above two the loop does not end on
    [ErrMaxDelegations]. *)
Theorem C2_each_role_at_most_once (n : nat) (snapshot : Snapshot)
    (tgt : string) (c : Client) :
  let visited := names (loads n snapshot tgt c (newDelegationsIterator tgt)) in
  NoDup visited /\
  forall A B : string,
    (forall x, x ∈ visited -> x = A \/ x = B) ->
    (length visited <= 2)%nat /\
    ((2 < n)%nat ->
     forall t m v,
       fst (fst (for_loop n snapshot tgt c (newDelegationsIterator tgt)))
         <> inl (ErrMaxDelegations t m v)).
Proof.
  intros visited.
  destruct (loads_fresh n snapshot tgt c (newDelegationsIterator tgt) eq_refl)
    as [Hnd _].
  fold visited in Hnd. split; [exact Hnd|]. intros A B Hsub.
  assert (Hlen : (length visited <= 2)%nat).
  { change 2%nat with (length [A; B]). apply submseteq_length.
    apply NoDup_submseteq; [exact Hnd|]. intros x Hx.
    destruct (Hsub x Hx) as [->| ->].
    - apply elem_of_cons. left. reflexivity.
    - apply elem_of_cons. right. apply elem_of_cons. left. reflexivity. }
  split; [exact Hlen|]. intros Hn t m v.
  destruct (for_loop_cases n snapshot tgt c (newDelegationsIterator tgt))
    as [(c' & it' & Hi & _)|(k & ck & itk & r & c' & it' & _ & _ & Hr & _ & Hf)].
  - exfalso. apply iterations_loads in Hi as [Hl _].
    unfold visited, names in Hlen. rewrite length_map, Hl in Hlen. lia.
  - rewrite Hf. cbn [fst]. apply loop_body_Return in Hr as [_ Hm]. apply Hm.
Qed.

(** C8. [add] appends nothing but delegations whose role matches the
    target, so a role that does not match stays off the stack; when the
    matcher fails on a role, [add] returns the matcher's error; and in a
    resolution every call of [loadDelegatedTargets] after the one for the
    seed is for a role that matches the target. *)
Theorem C8_only_matching_roles (tgt : string) :
  (forall it roles dl v e it',
     target it = tgt ->
     add it roles dl v = (e, it') ->
     exists pushed,
       stack it' = stack it ++ pushed /\
       Forall (fun d => MatchesPath (delegatee d) tgt = inr true /\
                        In (delegatee d) roles) pushed) /\
  (forall it roles dl v r err,
     target it = tgt ->
     In r roles -> MatchesPath r tgt = inl err ->
     exists r' err' it',
       In r' roles /\ MatchesPath r' tgt = inl err' /\
       add it roles dl v = (Some (ErrExternal err'), it')) /\
  (forall n snapshot c l1 d r l2,
     loads n snapshot tgt c (newDelegationsIterator tgt) = l1 ++ (d, r) :: l2 ->
     (l1 = [] /\ d = seed) \/ MatchesPath (delegatee d) tgt = inr true).
Proof.
  split; [|split].
  - intros it roles dl v e it' Ht Ha. apply add_loop_inv in Ha.
    destruct Ha as (_ & _ & pushed & Hs & HF). exists pushed.
    split; [exact Hs|]. eapply Forall_impl; [exact HF|]. cbn.
    intros d (Hm & _ & _ & Hin). split; [congruence|]. apply in_rev. exact Hin.
  - intros it roles dl v r err Ht Hin Hm. unfold add.
    destruct (add_loop (rev roles) it dl v) as [[e|] it'] eqn:Ha.
    + apply add_loop_Some in Ha as Hs. destruct Hs as (r' & err' & Hin' & Hm' & ->).
      exists r', err', it'. repeat split; [apply in_rev; exact Hin'|congruence].
    + exfalso. apply add_loop_None in Ha. rewrite Forall_forall in Ha.
      destruct (Ha r) as [b Hb].
      * apply list_elem_of_In, in_rev. rewrite rev_involutive. exact Hin.
      * congruence.
  - intros n snapshot c l1 d r l2 Hl.
    destruct (loads_from_seed n snapshot tgt c) as [Hnil|(rest & Heq & _ & Hp)].
    { rewrite Hnil in Hl. destruct l1; discriminate. }
    rewrite Heq in Hl. destruct l1 as [|e1 l1]; cbn [app] in Hl.
    + injection Hl as <- _ _. left. split; reflexivity.
    + injection Hl as _ Hrest. right.
      destruct (Hp _ _ _ Hrest) as (p & t & dels & _ & _ & _ & _ & _ & Hm).
      exact Hm.
Qed.

(** C10. In a resolution the first call of [loadDelegatedTargets] is for
    the seed, and what it returns was accepted by the trust database of
    the client; no later call is for a role named [targets]: each is for a
    delegation added for an earlier call, and what it returns was accepted
    by the verifier of that delegation, made from the delegations of the
    delegator's metadata. *)
Theorem C10_root_verifier_for_seed_only (n : nat) (snapshot : Snapshot)
    (tgt : string) (c : Client) :
  loads n snapshot tgt c (newDelegationsIterator tgt) = [] \/
  exists r0 rest,
    loads n snapshot tgt c (newDelegationsIterator tgt) = (seed, r0) :: rest /\
    (forall targets,
       r0 = inr targets ->
       exists fileMeta raw,
         snapshot_Meta snapshot !! "targets.json" = Some fileMeta /\
         db_Unmarshal_targets (db c) raw "targets" (sfm_Version fileMeta)
           = inr targets) /\
    (forall l1 d r l2,
       rest = l1 ++ (d, r) :: l2 ->
       Name (delegatee d) <> "targets" /\
       parented tgt ((seed, r0) :: l1) d /\
       (forall targets,
          r = inr targets ->
          exists fileMeta raw,
            snapshot_Meta snapshot !! (Name (delegatee d) +:+ ".json")
              = Some fileMeta /\
            verifier_Unmarshal (verifier d) raw (Name (delegatee d))
              (sfm_Version fileMeta) = inr targets)).
Proof.
  pose proof (loads_results n snapshot tgt c (newDelegationsIterator tgt)) as Hres.
  destruct (loads_from_seed n snapshot tgt c) as [Hnil|(rest & Heq & Hne & Hp)];
    [left; exact Hnil|].
  right. rewrite Heq in *. eexists _, rest. split; [reflexivity|]. split.
  - intros targets Ht. apply loadDelegatedTargets_accepted in Ht.
    destruct Ht as (fm & raw & Hm & _ & Hu). exists fm, raw.
    split; [exact Hm|]. unfold unmarshal in Hu.
    destruct (decide _) as [_|Hc]; [exact Hu|congruence].
  - intros l1 d r l2 Hrest.
    assert (Hd : Name (delegatee d) <> "targets").
    { rewrite Hrest in Hne. unfold names in Hne. rewrite map_app in Hne.
      apply Forall_app in Hne as [_ Hne]. inversion Hne; subst. assumption. }
    split; [exact Hd|]. split; [apply (Hp _ _ _ Hrest)|].
    intros targets ->. apply Forall_cons in Hres as [_ Hres].
    rewrite Hrest in Hres. apply Forall_app in Hres as [_ Hres].
    apply Forall_cons in Hres as [(ck & Hdb & Hr) _]. cbn [fst snd] in Hr.
    symmetry in Hr. apply loadDelegatedTargets_accepted in Hr.
    destruct Hr as (fm & raw & Hm & _ & Hu). exists fm, raw.
    split; [exact Hm|]. unfold unmarshal in Hu.
    destruct (decide _) as [Heq'|_]; [contradiction|exact Hu].
Qed.

(** ** The order of the traversal *)

Lemma loop_body_next_eq (snapshot : Snapshot) (tgt : string) (c : Client)
    (it it' : delegationsIterator) :
  next it = next it' ->
  loop_body snapshot tgt c it = loop_body snapshot tgt c it'.
Proof. intros Hn. unfold loop_body. rewrite Hn. reflexivity. Qed.

Lemma loads_next_eq (n : nat) (snapshot : Snapshot) (tgt : string) (c : Client)
    (it it' : delegationsIterator) :
  next it = next it' ->
  loads n snapshot tgt c it = loads n snapshot tgt c it'.
Proof.
  intros Hn. destruct n as [|n]; [reflexivity|]. cbn [loads].
  rewrite (loop_body_next_eq _ _ _ _ _ Hn), Hn. reflexivity.
Qed.

Lemma for_loop_next_eq (n : nat) (snapshot : Snapshot) (tgt : string)
    (c : Client) (it it' : delegationsIterator) :
  next it = next it' ->
  fst (for_loop n snapshot tgt c it) = fst (for_loop n snapshot tgt c it').
Proof.
  intros Hn. destruct n as [|n]; [reflexivity|]. cbn [for_loop].
  rewrite (loop_body_next_eq _ _ _ _ _ Hn). reflexivity.
Qed.

(** With more delegations below, a pass that starts on a delegation that
    is not terminating does the same and leaves them below. *)
Lemma loop_body_below (snapshot : Snapshot) (tgt : string) (c : Client)
    (it it1 : delegationsIterator) (d : delegation) (below : list delegation) :
  next it = (Some d, it1) ->
  Terminating (delegatee d) = false ->
  loop_body snapshot tgt c (set_stack it (below ++ stack it)) =
    (fst (fst (loop_body snapshot tgt c it)),
     snd (fst (loop_body snapshot tgt c it)),
     set_stack (snd (loop_body snapshot tgt c it))
       (below ++ stack (snd (loop_body snapshot tgt c it)))).
Proof.
  intros Hn Hterm. unfold loop_body, set_stack at 1.
  rewrite next_below, <- iterator_eta, Hn, Hterm.
  destruct (loadDelegatedTargets _ _ _ _) as [[err|targets] c1];
    [reflexivity|].
  destruct (targets_Targets targets !! tgt); [reflexivity|].
  destruct (targets_Delegations targets) as [dels|]; [|reflexivity].
  destruct (NewDelegationsVerifier dels) as [err|dv]; [reflexivity|].
  unfold add, set_stack at 1. rewrite add_loop_below.
  rewrite <- iterator_eta.
  destruct (add_loop _ it1 _ dv) as [[err|] it2]; reflexivity.
Qed.

(** What is on top of the stack is gone through, with all that it leads
    to, before anything below it: a run over [below ++ stack it] is the run
    over [stack it] alone, followed by a run over [below] when the first
    has come to the end of its stack without meeting a terminating
    delegation. *)
Lemma loads_below (n : nat) (snapshot : Snapshot) (tgt : string) (c : Client)
    (it : delegationsIterator) (below : list delegation) :
  let sub := loads n snapshot tgt c it in
  let r := fst (fst (for_loop n snapshot tgt c it)) in
  let c' := snd (fst (for_loop n snapshot tgt c it)) in
  let it' := snd (for_loop n snapshot tgt c it) in
  loads n snapshot tgt c (set_stack it (below ++ stack it)) =
    sub ++ (if terminated sub then []
            else if exhausted r
                 then loads (n - length sub) snapshot tgt c' (set_stack it' below)
                 else []) /\
  fst (for_loop n snapshot tgt c (set_stack it (below ++ stack it))) =
    (if terminated sub then (r, c')
     else if exhausted r
          then fst (for_loop (n - length sub) snapshot tgt c' (set_stack it' below))
          else (r, c')).
Proof.
  cbv zeta. revert c it. induction n as [|n IH]; intros c it.
  - cbn. split; reflexivity.
  - destruct (next it) as [[d|] it1] eqn:Hn.
    + destruct (Terminating (delegatee d)) eqn:Hterm.
      * assert (Heq : next (set_stack it (below ++ stack it)) = next it).
        { unfold set_stack. rewrite next_below, <- iterator_eta, Hn, Hterm.
          reflexivity. }
        rewrite (loads_next_eq _ _ _ _ _ _ Heq), (for_loop_next_eq _ _ _ _ _ _ Heq).
        assert (Ht : terminated (loads (S n) snapshot tgt c it) = true).
        { cbn [loads]. rewrite Hn. unfold terminated. cbn [existsb fst].
          rewrite Hterm. reflexivity. }
        rewrite Ht, app_nil_r.
        split; [reflexivity|]. destruct (for_loop _ _ _ _ _) as [[? ?] ?].
        reflexivity.
      * pose proof (loop_body_below snapshot tgt c it it1 d below Hn Hterm) as Hb.
        assert (HnB : next (set_stack it (below ++ stack it)) =
                      (Some d, set_stack it1 (below ++ stack it1))).
        { unfold set_stack at 1. rewrite next_below, <- iterator_eta, Hn, Hterm.
          reflexivity. }
        cbn [loads for_loop]. rewrite HnB, Hb, Hn.
        destruct (loop_body snapshot tgt c it) as [[[r|] c1] it2] eqn:Hl;
          cbn [fst snd].
        -- apply loop_body_Return in Hl as [[(Hnone & _)|[_ Hne]] _].
           { rewrite Hn in Hnone. discriminate. }
           unfold terminated. cbn [existsb fst length]. rewrite Hterm.
           cbn [orb]. assert (Hex : exhausted r = false).
           { destruct r as [[]|]; try reflexivity. exfalso. eapply Hne.
             reflexivity. }
           rewrite Hex. split; reflexivity.
        -- destruct (IH c1 it2) as [IH1 IH2]. rewrite IH1, IH2.
           unfold terminated at 2 4. cbn [existsb fst length]. rewrite Hterm.
           cbn [orb]. fold (terminated (loads n snapshot tgt c1 it2)).
           replace (S n - S (length (loads n snapshot tgt c1 it2)))%nat
             with (n - length (loads n snapshot tgt c1 it2))%nat by lia.
           split; reflexivity.
    + apply next_None in Hn as Hnone. destruct Hnone as [-> _].
      assert (Heq : next (set_stack it (below ++ stack it)) =
                    next (set_stack (set_stack it []) below)).
      { unfold set_stack. cbn [stack target visitedRoles].
        rewrite next_below, <- iterator_eta, Hn. reflexivity. }
      rewrite (loads_next_eq _ _ _ _ _ _ Heq), (for_loop_next_eq _ _ _ _ _ _ Heq).
      cbn [loads for_loop]. unfold loop_body. rewrite Hn.
      cbn [fst snd app terminated existsb exhausted length].
      rewrite Nat.sub_0_r. split; reflexivity.
Qed.

(** C3. [add] pushes the delegations whose role matches, the last declared
    first, so that the first declared is on top. The run after [add] is
    then the run over the first declared matching role alone, with all it
    leads to, followed, when that run has come to the end of its stack
    without meeting a terminating delegation, by the run over what was
    pending before and the later declared matching roles. The run over the
    first declared matching role starts with that role when it has not
    been visited. *)
Theorem C3_preorder (n : nat) (snapshot : Snapshot) (tgt : string)
    (c : Client) (it it2 : delegationsIterator) (roles : list DelegatedRole)
    (dl : string) (v : DelegationsVerifier) :
  add it roles dl v = (None, it2) ->
  stack it2 = stack it ++ rev (matching_edges (target it) roles dl v) /\
  forall r rs,
    List.filter (is_match (target it)) roles = r :: rs ->
    let first := set_stack it [edge dl v r] in
    let later := stack it ++ rev (map (edge dl v) rs) in
    let sub := loads n snapshot tgt c first in
    let res := for_loop n snapshot tgt c first in
    loads n snapshot tgt c it2 =
      sub ++ (if terminated sub then []
              else if exhausted (fst (fst res))
                   then loads (n - length sub) snapshot tgt (snd (fst res))
                          (set_stack (snd res) later)
                   else []) /\
    (Name r ∉ visitedRoles it -> (0 < n)%nat ->
     exists result rest, sub = (edge dl v r, result) :: rest).
Proof.
  intros Ha. apply add_None in Ha. subst it2. split; [reflexivity|].
  intros r rs Hf first later sub res. split.
  - unfold matching_edges. rewrite Hf. cbn [map rev]. rewrite app_assoc.
    fold later.
    change (set_stack it (later ++ [edge dl v r]))
      with (set_stack first (later ++ stack first)).
    apply loads_below.
  - intros Hfresh Hn. destruct n as [|n]; [lia|].
    unfold sub, first, set_stack. cbn [loads].
    change [edge dl v r] with ([] ++ [edge dl v r]). rewrite next_snoc.
    cbn [edge delegatee]. destruct (decide _) as [Hin|_]; [contradiction|].
    eauto.
Qed.

(** C6. When the metadata loaded in pass [k] of the loop lists the target,
    [getTargetFileMeta] returns that entry: the call of
    [loadDelegatedTargets] that found it is the last one made, the client
    is as that call left it, and the iterator is as [next] left it, nothing
    having been added. *)
Theorem C6_first_match_wins (c0 c ck c1 : Client) (tgt : string)
    (snapshot : Snapshot) (k : nat) (itk it1 : delegationsIterator)
    (d : delegation) (targets : Targets) (m : TargetFileMeta) :
  loadLocalSnapshot c0 = (inr snapshot, c) ->
  Z.of_nat k < MaxDelegations c ->
  iterations k snapshot tgt c (newDelegationsIterator tgt) = Some (ck, itk) ->
  next itk = (Some d, it1) ->
  loadDelegatedTargets ck snapshot (Name (delegatee d)) (verifier d)
    = (inr targets, c1) ->
  targets_Targets targets !! tgt = Some m ->
  let n := Z.to_nat (MaxDelegations c) in
  getTargetFileMeta c0 tgt = (inr m, c1) /\
  for_loop n snapshot tgt c (newDelegationsIterator tgt) = (inr m, c1, it1) /\
  loads n snapshot tgt c (newDelegationsIterator tgt) =
    loads k snapshot tgt c (newDelegationsIterator tgt) ++ [(d, inr targets)] /\
  length (loads n snapshot tgt c (newDelegationsIterator tgt)) = S k.
Proof.
  intros Hs Hk Hi Hn Hl Hm n.
  assert (Hf : for_loop n snapshot tgt c (newDelegationsIterator tgt)
               = (inr m, c1, it1)).
  { replace n with (k + S (n - S k))%nat by (unfold n; lia).
    rewrite (iterations_for_loop _ _ _ _ _ _ _ Hi).
    cbn [for_loop]. unfold loop_body. rewrite Hn, Hl, Hm. reflexivity. }
  assert (Hlo : loads n snapshot tgt c (newDelegationsIterator tgt) =
                loads k snapshot tgt c (newDelegationsIterator tgt)
                  ++ [(d, inr targets)]).
  { destruct (iterations_loads _ _ _ _ _ _ _ Hi) as [_ Happ].
    replace n with (k + S (n - S k))%nat by (unfold n; lia).
    rewrite Happ. f_equal. cbn [loads]. rewrite Hn.
    unfold loop_body. rewrite Hn, Hl, Hm. reflexivity. }
  repeat split.
  - unfold getTargetFileMeta. rewrite Hs. fold n. rewrite Hf. reflexivity.
  - exact Hf.
  - exact Hlo.
  - rewrite Hlo, length_app. destruct (iterations_loads _ _ _ _ _ _ _ Hi) as [-> _].
    cbn. lia.
Qed.

End Resolver.

(** ** The version pinned by the snapshot *)

Section VersionPinning.
Context {TY : Types} {CO : Collaborators}.

(** The two verifiers follow the contract [verify_and_decode], each with
    its own signature check; [verr] is how the errors of the contract
    appear among the errors of the collaborators. The two fetches follow
    the contract of the fetch: [served] is what the remote store holds
    under a name, [not_found] and [integrity] are the errors of a
    download. *)
Variable db_signed : DB -> RawMessage -> string -> bool.
Variable signed : DelegationsVerifier -> RawMessage -> string -> bool.
Variable decode : RawMessage -> option Targets.
Variable now : Z.
Variable verr : VerifyError -> ExtError.
Variable digest_ok : RawMessage -> SnapshotFileMeta -> bool.
Variable served : Client -> string -> option RawMessage.
Variable not_found : ExtError.
Variable integrity : ExtError.

Hypothesis db_Unmarshal_contract : forall d raw role ver,
  db_Unmarshal_targets d raw role ver =
    sum_map verr id (verify_and_decode (db_signed d) decode now raw role ver).

Hypothesis verifier_Unmarshal_contract : forall v raw role ver,
  verifier_Unmarshal v raw role ver =
    sum_map verr id (verify_and_decode (signed v) decode now raw role ver).

Hypothesis localMetaFromSnapshot_contract : forall c name m,
  localMetaFromSnapshot c name m =
    local_copy (agrees_with_snapshot digest_ok decode) (localMeta c !! name) m.

Hypothesis downloadMetaFromSnapshot_contract : forall c name m,
  downloadMetaFromSnapshot c name m =
    downloaded (agrees_with_snapshot digest_ok decode) not_found integrity
      (served c name) m.





End VersionPinning.

(** * The runs of the small repository *)

Section Runs.
Import Demo.

(** Against C1 as it is stated. In [pruned], [next] returns the
    terminating [T] and leaves no stack; [T] declares [U], which [add] pushes and the following [next]
    returns; the resolution loads [targets], [T] and [U], and finds [f] in
    [U]. *)
Lemma C1_edges_after_terminating :
  fst (next pending) = Some T_edge /\
  Terminating (delegatee T_edge) = true /\
  stack (snd (next pending)) = [] /\
  fst (next (snd (add (CO := demo_collab pruned) (snd (next pending))
                    [role "U" [] false] "T" [role "U" [] false])))
    = Some U_edge /\
  map (fun e => (Name (delegatee (fst e)), Terminating (delegatee (fst e))))
      (loads (CO := demo_collab pruned) 10 (w_snapshot pruned) "f"
         (loaded pruned (pruned_client 10)) start)
    = [("targets", false); ("T", true); ("U", false)] /\
  fst (getTargetFileMeta (CO := demo_collab pruned) (pruned_client 10) "f")
    = inr (meta 9).
Proof. vm_compute. repeat split; reflexivity. Qed.

Lemma C1_witness :
  stack after_T = [] /\
  forall below,
    next (set_stack pending (below ++ stack pending)) = (Some T_edge, after_T).
Proof.
  destruct (C1_terminating_clears_pending (CO := demo_collab pruned)
              pending after_T T_edge) as (H1 & H2 & _).
  - vm_compute. reflexivity.
  - reflexivity.
  - split; assumption.
Defined.



(** Against C9 as it is stated. For every bound there is a stack on which one call of [next]
    opens more activations than the bound. *)
Lemma C9_depth_unbounded :
  ~ exists bound : nat,
      forall it : delegationsIterator, (next_frames it <= bound)%nat.
Proof.
  intros [bound Hb]. specialize (Hb (revisits bound)).
  rewrite next_frames_run in Hb. cbn [revisits stack visitedRoles] in Hb.
  rewrite visited_run_all, length_rev, repeat_length in Hb; [lia|].
  apply Forall_forall. intros d Hd.
  apply list_elem_of_In, in_rev, repeat_spec in Hd. subst d.
  apply elem_of_singleton. reflexivity.
Qed.

Lemma C9_witness :
  next_frames (revisits 3) = S (length (stack (revisits 3))).
Proof.
  apply (proj2 (proj2 (C9_next_depth (revisits 3)))).
  repeat constructor; apply elem_of_singleton; reflexivity.
Defined.

Lemma C2_witness :
  (length (names (loads (CO := demo_collab cycle) 10 (w_snapshot cycle) "f"
                    (loaded cycle (cycle_client 10)) start)) <= 2)%nat /\
  forall t m v,
    fst (fst (for_loop (CO := demo_collab cycle) 10 (w_snapshot cycle) "f"
                (loaded cycle (cycle_client 10)) start))
      <> inl (ErrMaxDelegations t m v).
Proof.
  destruct (C2_each_role_at_most_once (CO := demo_collab cycle) 10
              (w_snapshot cycle) "f" (loaded cycle (cycle_client 10)))
    as [_ H2].
  destruct (H2 "targets" "B") as [Hlen Hmax].
  - assert (Hv : names (loads (CO := demo_collab cycle) 10 (w_snapshot cycle)
                          "f" (loaded cycle (cycle_client 10))
                          (newDelegationsIterator "f")) = ["targets"; "B"]).
    { vm_compute. reflexivity. }
    rewrite Hv. intros x Hx.
    apply elem_of_cons in Hx as [Hx|Hx]; [left; exact Hx|].
    apply elem_of_cons in Hx as [Hx|Hx]; [right; exact Hx|].
    apply elem_of_nil in Hx. contradiction.
  - split; [exact Hlen|]. apply Hmax. lia.
Defined.

Lemma C3_witness :
  names (loads (CO := demo_collab tree) 9 (w_snapshot tree) "f"
           (fst (after tree (tree_client 10) 1))
           (snd (after tree (tree_client 10) 1)))
    = ["A"; "C"; "B"].
Proof.
  assert (Hadd : add (CO := demo_collab tree) after_seed tree_roles "targets"
                   tree_roles
                 = (None, snd (after tree (tree_client 10) 1))).
  { vm_compute. reflexivity. }
  pose proof (proj1 (proj2 (C3_preorder (CO := demo_collab tree) 9
                              (w_snapshot tree) "f"
                              (fst (after tree (tree_client 10) 1)) after_seed
                              _ tree_roles "targets" tree_roles Hadd)
                       (role "A" ["f"] false) [role "B" [] false] eq_refl))
    as H2.
  cbv zeta in H2. rewrite H2. vm_compute. reflexivity.
Defined.

Lemma C6_witness :
  getTargetFileMeta (CO := demo_collab tree) (tree_client 10) "f"
    = (inr (meta 42), snd (load tree (tree_client 10) 3)).
Proof.
  refine (proj1 (C6_first_match_wins (CO := demo_collab tree)
                   (tree_client 10) (loaded tree (tree_client 10))
                   (fst (after tree (tree_client 10) 3))
                   (snd (load tree (tree_client 10) 3))
                   "f" (w_snapshot tree) 3
                   (snd (after tree (tree_client 10) 3))
                   (snd (next (snd (after tree (tree_client 10) 3))))
                   (popped tree (tree_client 10) 3)
                   (loaded_targets tree (tree_client 10) 3)
                   (meta 42) _ _ _ _ _ _)).
  - vm_compute. reflexivity.
  - vm_compute. reflexivity.
  - vm_compute. reflexivity.
  - vm_compute. reflexivity.
  - vm_compute. reflexivity.
  - vm_compute. reflexivity.
Defined.

Lemma C7_witness :
  snd (loadDelegatedTargets (CO := demo_collab stale) (stale_client 10)
         (w_snapshot stale) "A" [role "A" [] false])
    = stale_client 10.
Proof.
  destruct (C7_persists_after_verification (CO := demo_collab stale)
              (stale_client 10) _ (w_snapshot stale) "A" [role "A" [] false] _
              (surjective_pairing _)) as (_ & H2 & _).
  destruct (H2 (snd (pin "A" 1))) as (H3 & _).
  - vm_compute. reflexivity.
  - destruct (H3 IntegrityError) as [Hc _].
    + vm_compute. reflexivity.
    + exact Hc.
Defined.

Lemma C8_witness :
  exists pushed,
    stack (snd (add (CO := demo_collab tree) after_seed tree_roles "targets"
                  tree_roles))
      = stack after_seed ++ pushed /\
    Forall (fun d => @MatchesPath _ (demo_collab tree) (delegatee d) "f"
                       = inr true /\
                     In (delegatee d) tree_roles) pushed.
Proof.
  apply (proj1 (C8_only_matching_roles (CO := demo_collab tree) "f")
           after_seed tree_roles "targets" tree_roles
           (fst (add (CO := demo_collab tree) after_seed tree_roles "targets"
                   tree_roles))
           _ eq_refl (surjective_pairing _)).
Defined.

Lemma C10_witness :
  Forall (fun e => Name (delegatee (fst e)) <> "targets")
    (tail (loads (CO := demo_collab tree) 10 (w_snapshot tree) "f"
             (loaded tree (tree_client 10)) start)).
Proof.
  destruct (C10_root_verifier_for_seed_only (CO := demo_collab tree) 10
              (w_snapshot tree) "f" (loaded tree (tree_client 10)))
    as [Hnil|(r0 & rest & Heq & _ & Hrest)].
  - apply (f_equal (@length _)) in Hnil. vm_compute in Hnil. discriminate.
  - unfold start. rewrite Heq. cbn [tail]. apply Forall_forall.
    intros [d r] He. apply list_elem_of_In, in_split in He.
    destruct He as (l1 & l2 & ->). apply (Hrest l1 d r l2 eq_refl).
Defined.

End Runs.

(** * Further properties of the iterator *)

Section IteratorMore.
Context {TY : Types} {CO : Collaborators}.

(** [next] returns no delegation exactly when every pending delegation is
    for a role that has been visited, which includes the empty stack; it
    then leaves an empty stack and the rest of the iterator as it was. *)
Theorem next_none_iff (it : delegationsIterator) :
  (fst (next it) = None <->
   Forall (fun d => Name (delegatee d) ∈ visitedRoles it) (stack it)) /\
  (fst (next it) = None -> snd (next it) = set_stack it []).
Proof.
  split; [split|].
  - destruct (next it) as [[d|] it'] eqn:Hn; [discriminate|]. intros _.
    apply next_None in Hn. tauto.
  - destruct it as [s t vis]. cbn [stack visitedRoles].
    induction s as [|x s IH] using rev_ind; intros HF.
    + reflexivity.
    + apply Forall_app in HF as [HF Hx]. apply Forall_cons in Hx as [Hx _].
      rewrite next_snoc. destruct (decide _); [auto|contradiction].
  - destruct (next it) as [[d|] it'] eqn:Hn; [discriminate|]. intros _.
    apply next_None in Hn. tauto.
Qed.

(** [next] returns the topmost pending delegation whose role has not been
    visited: the delegations above it are dropped, its role is added to
    the visited roles, and the stack keeps what was below it, or nothing
    when the delegation is terminating. *)
Theorem next_some_iff (it it' : delegationsIterator) (d : delegation) :
  next it = (Some d, it') <->
  exists below skipped,
    stack it = below ++ d :: skipped /\
    Forall (fun e => Name (delegatee e) ∈ visitedRoles it) skipped /\
    (Name (delegatee d) ∉ visitedRoles it) /\
    it' = mkIterator (if Terminating (delegatee d) then [] else below)
            (target it) ({[Name (delegatee d)]} ∪ visitedRoles it).
Proof.
  destruct it as [s t vis]. cbn [stack target visitedRoles]. split.
  - induction s as [|x s IH] using rev_ind; intros Hn.
    + rewrite next_nil in Hn. discriminate.
    + rewrite next_snoc in Hn. destruct (decide _) as [Hin|Hin].
      * destruct (IH Hn) as (below & skipped & -> & HF & Hd & ->).
        exists below, (skipped ++ [x]). rewrite <- app_assoc.
        repeat split; auto. apply Forall_app. split; [exact HF|].
        constructor; [exact Hin|constructor].
      * injection Hn as <- <-. exists s, []. repeat split; auto.
  - intros (below & skipped & -> & HF & Hd & ->).
    induction skipped as [|x skipped IH] using rev_ind.
    + rewrite next_snoc. destruct (decide _); [contradiction|reflexivity].
    + apply Forall_app in HF as [HF Hx]. apply Forall_cons in Hx as [Hx _].
      change (below ++ d :: skipped ++ [x])
        with (below ++ (d :: skipped) ++ [x]).
      rewrite app_assoc, next_snoc.
      destruct (decide _); [apply IH; exact HF|contradiction].
Qed.

Lemma add_loop_app (a b : list DelegatedRole) (it : delegationsIterator)
    (dl : string) (v : DelegationsVerifier) :
  add_loop (a ++ b) it dl v =
    match add_loop a it dl v with
    | (Some e, it') => (Some e, it')
    | (None, it') => add_loop b it' dl v
    end.
Proof.
  revert it. induction a as [|r a IH]; intros it; cbn [app add_loop].
  - reflexivity.
  - destruct (MatchesPath r (target it)); [reflexivity|]. apply IH.
Qed.

(** Adding the roles of two lists put end to end is adding the second list
    and then, when that did not fail, the first. *)
Theorem add_app (it : delegationsIterator) (roles1 roles2 : list DelegatedRole)
    (dl : string) (v : DelegationsVerifier) :
  add it (roles1 ++ roles2) dl v =
    match add it roles2 dl v with
    | (Some e, it') => (Some e, it')
    | (None, it') => add it' roles1 dl v
    end.
Proof.
  unfold add. rewrite rev_app_distr. apply add_loop_app.
Qed.

(** When the matcher fails on a role and on none declared after it, [add]
    returns that error; the matching roles declared after it have been
    pushed, and the roles declared before it have not been looked at. *)
Theorem add_stops_at_last_failing (it : delegationsIterator)
    (before after : list DelegatedRole) (r : DelegatedRole) (err : ExtError)
    (dl : string) (v : DelegationsVerifier) :
  MatchesPath r (target it) = inl err ->
  Forall (fun r' => exists b, MatchesPath r' (target it) = inr b) after ->
  add it (before ++ r :: after) dl v =
    (Some (ErrExternal err),
     set_stack it (stack it ++ rev (matching_edges (target it) after dl v))).
Proof.
  intros Hr Hafter. unfold add.
  change (before ++ r :: after) with (before ++ [r] ++ after).
  rewrite app_assoc, rev_app_distr, add_loop_app.
  fold (add it after dl v). rewrite (iterator_eta it) at 1.
  rewrite add_ok by exact Hafter.
  rewrite rev_app_distr. cbn [rev app add_loop target]. rewrite Hr.
  reflexivity.
Qed.

End IteratorMore.

(** * Further properties of the loader and of the resolver *)

Section ResolverMore.
Context {TY : Types} {CO : Collaborators}.


(** The shape of a run: the calls of [loadDelegatedTargets] are calls that
    were passed over, followed by nothing when the loop ends on
    [ErrUnknownTarget] or on the bound, and otherwise by the one call that
    ends the loop. *)
Lemma for_loop_loads (n : nat) (snapshot : Snapshot) (tgt : string)
    (c : Client) (it : delegationsIterator) :
  exists l,
    Forall (passed_over tgt) l /\
    ((loads n snapshot tgt c it = l /\
      fst (fst (for_loop n snapshot tgt c it))
        = inl (ErrUnknownTarget tgt (snapshot_Version snapshot))) \/
     (loads n snapshot tgt c it = l /\ length l = n /\
      exists m,
        fst (fst (for_loop n snapshot tgt c it))
          = inl (ErrMaxDelegations tgt m (snapshot_Version snapshot))) \/
     (exists d t m,
        loads n snapshot tgt c it = l ++ [(d, inr t)] /\
        targets_Targets t !! tgt = Some m /\
        fst (fst (for_loop n snapshot tgt c it)) = inr m) \/
     (exists d e,
        loads n snapshot tgt c it = l ++ [(d, inl e)] /\
        load_error e /\
        fst (fst (for_loop n snapshot tgt c it)) = inl e) \/
     (exists d t err,
        loads n snapshot tgt c it = l ++ [(d, inr t)] /\
        targets_Targets t !! tgt = None /\
        fst (fst (for_loop n snapshot tgt c it)) = inl (ErrExternal err))).
Proof.
  revert c it. induction n as [|n IH]; intros c it.
  - exists []. split; [constructor|]. right. left. cbn. eauto.
  - cbn [loads for_loop]. unfold loop_body.
    destruct (next it) as [[d|] it1] eqn:Hn.
    2: { exists []. split; [constructor|]. left. split; reflexivity. }
    destruct (loadDelegatedTargets c snapshot _ _) as [[e|t] c1] eqn:Hl;
      cbn [fst].
    { exists []. split; [constructor|]. right. right. right. left.
      exists d, e. repeat split. eapply loadDelegatedTargets_error. exact Hl. }
    destruct (targets_Targets t !! tgt) as [m|] eqn:Ht.
    { exists []. split; [constructor|]. right. right. left.
      exists d, t, m. repeat split. exact Ht. }
    assert (Hcont : forall c' it',
              exists l,
                Forall (passed_over tgt) l /\
                ((((d, @inr error _ t) :: loads n snapshot tgt c' it') = l /\
                  fst (fst (for_loop n snapshot tgt c' it'))
                    = inl (ErrUnknownTarget tgt (snapshot_Version snapshot))) \/
                 (((d, @inr error _ t) :: loads n snapshot tgt c' it') = l /\
                  length l = S n /\
                  exists m,
                    fst (fst (for_loop n snapshot tgt c' it'))
                      = inl (ErrMaxDelegations tgt m (snapshot_Version snapshot))) \/
                 (exists d' t' m,
                    ((d, @inr error _ t) :: loads n snapshot tgt c' it')
                      = l ++ [(d', inr t')] /\
                    targets_Targets t' !! tgt = Some m /\
                    fst (fst (for_loop n snapshot tgt c' it')) = inr m) \/
                 (exists d' e,
                    ((d, @inr error _ t) :: loads n snapshot tgt c' it')
                      = l ++ [(d', inl e)] /\
                    load_error e /\
                    fst (fst (for_loop n snapshot tgt c' it')) = inl e) \/
                 (exists d' t' err,
                    ((d, @inr error _ t) :: loads n snapshot tgt c' it')
                      = l ++ [(d', inr t')] /\
                    targets_Targets t' !! tgt = None /\
                    fst (fst (for_loop n snapshot tgt c' it'))
                      = inl (ErrExternal err)))).
    { intros c' it'. destruct (IH c' it') as (l & HF & Hcases).
      exists ((d, inr t) :: l). split.
      { constructor; [exists t; split; [reflexivity|exact Ht]|exact HF]. }
      destruct Hcases as [(Hlo & Hr)|[(Hlo & Hlen & m & Hr)|
        [(d' & t' & m & Hlo & Ht' & Hr)|[(d' & e & Hlo & He & Hr)|
         (d' & t' & err & Hlo & Ht' & Hr)]]]]; rewrite Hlo.
      - left. auto.
      - right. left. cbn [length]. rewrite Hlen. eauto.
      - right. right. left. exists d', t', m. auto.
      - right. right. right. left. exists d', e. auto.
      - right. right. right. right. exists d', t', err. auto. }
    destruct (targets_Delegations t) as [dels|]; [|apply Hcont].
    destruct (NewDelegationsVerifier dels) as [err|dv].
    { exists []. split; [constructor|]. right. right. right. right.
      exists d, t, err. repeat split. exact Ht. }
    destruct (add it1 _ _ dv) as [[e|] it2] eqn:Ha; [|apply Hcont].
    apply add_loop_Some in Ha as (r' & err & _ & _ & ->).
    exists []. split; [constructor|]. right. right. right. right.
    exists d, t, err. repeat split. exact Ht.
Qed.



(** [getTargetFileMeta] fails with [ErrNoLocalSnapshot] exactly when the
    local metadata could be read and has no [snapshot.json]: no later step
    returns that error. *)
Theorem no_local_snapshot_iff (c : Client) (tgt : string) :
  fst (getTargetFileMeta c tgt) = inl ErrNoLocalSnapshot <->
  fst (getLocalMeta c) = None /\
  localMeta (snd (getLocalMeta c)) !! "snapshot.json" = None.
Proof.
  unfold getTargetFileMeta, loadLocalSnapshot.
  destruct (getLocalMeta c) as [[err|] c1]; cbn [fst snd].
  { split; [discriminate|]. intros [? _]. discriminate. }
  destruct (localMeta c1 !! "snapshot.json") as [rawS|].
  2: { cbn [fst]. split; auto. }
  destruct (db_Unmarshal_snapshot _ _ _ _) as [err|snapshot].
  { cbn [fst]. split; [discriminate|]. intros [_ ?]. discriminate. }
  split; [|intros [_ ?]; discriminate].
  destruct (for_loop_loads (Z.to_nat (MaxDelegations c1)) snapshot tgt c1
              (newDelegationsIterator tgt)) as (l & _ & Hcases).
  destruct (for_loop _ _ _ _ _) as [[r c2] it2]. cbn [fst] in *. intros ->.
  destruct Hcases as [(_ & Hr)|[(_ & _ & m & Hr)|
    [(d & t & m & _ & _ & Hr)|[(d & e & _ & He & Hr)|
     (d & t & err & _ & _ & Hr)]]]]; try discriminate.
  injection Hr as <-. destruct He.
Qed.

(** With a bound that is zero or negative the loop is not entered:
    nothing is loaded and [ErrMaxDelegations] is returned. *)
Theorem nonpositive_bound (c c1 : Client) (tgt : string) (snapshot : Snapshot) :
  loadLocalSnapshot c = (inr snapshot, c1) ->
  MaxDelegations c1 <= 0 ->
  getTargetFileMeta c tgt =
    (inl (ErrMaxDelegations tgt (MaxDelegations c1) (snapshot_Version snapshot)),
     c1) /\
  loads (Z.to_nat (MaxDelegations c1)) snapshot tgt c1
    (newDelegationsIterator tgt) = [].
Proof.
  intros Hs Hle. unfold getTargetFileMeta. rewrite Hs.
  replace (Z.to_nat (MaxDelegations c1)) with 0%nat by lia.
  split; reflexivity.
Qed.

Lemma set_local_id (c : Client) : set_local c (local c) = c.
Proof. destruct c; reflexivity. Qed.

(** Every entry records a call made on the client of the start, with some
    local store. *)
Lemma loads_calls (n : nat) (snapshot : Snapshot) (tgt : string)
    (c : Client) (it : delegationsIterator) :
  Forall (fun e =>
            exists l,
              snd e = fst (loadDelegatedTargets (set_local c l) snapshot
                             (Name (delegatee (fst e))) (verifier (fst e))))
         (loads n snapshot tgt c it).
Proof.
  revert c it. induction n as [|n IH]; intros c it; cbn [loads].
  - constructor.
  - destruct (next it) as [[d|] it1] eqn:Hn; [|constructor].
    constructor.
    { exists (local c). rewrite set_local_id. reflexivity. }
    destruct (loop_body snapshot tgt c it) as [[[r|] c'] it'] eqn:Hb;
      [constructor|].
    apply loop_body_Continue in Hb.
    destruct Hb as (d' & it1' & targets & _ & Hl & _).
    apply loadDelegatedTargets_client in Hl.
    eapply Forall_impl; [apply IH|]. cbn. intros e (l & He).
    exists l. rewrite He. destruct Hl as [->|[l0 ->]]; reflexivity.
Qed.

(** A target file meta that [getTargetFileMeta] returns is the entry for
    the target in the metadata of the last role loaded: the snapshot lists
    the file of that role, and the verifier chosen for the role accepted,
    at the version the snapshot pins, the bytes obtained for that file by
    the client, whose local store alone may have changed since the
    snapshot was loaded; the roles loaded before it were loaded and do not
    list the target. *)
Theorem result_from_verified_metadata (c : Client) (tgt : string)
    (m : TargetFileMeta) :
  fst (getTargetFileMeta c tgt) = inr m ->
  exists snapshot c1 l d targets,
    loadLocalSnapshot c = (inr snapshot, c1) /\
    loads (Z.to_nat (MaxDelegations c1)) snapshot tgt c1
      (newDelegationsIterator tgt) = l ++ [(d, inr targets)] /\
    Forall (passed_over tgt) l /\
    targets_Targets targets !! tgt = Some m /\
    exists store fileMeta raw,
      snapshot_Meta snapshot !! (Name (delegatee d) +:+ ".json")
        = Some fileMeta /\
      obtained (set_local c1 store) (Name (delegatee d) +:+ ".json") fileMeta
        = inr raw /\
      unmarshal (set_local c1 store) (Name (delegatee d)) (verifier d) raw
        fileMeta = inr targets.
Proof.
  unfold getTargetFileMeta.
  destruct (loadLocalSnapshot c) as [[e|snapshot] c1] eqn:Hs; [discriminate|].
  pose proof (loads_calls (Z.to_nat (MaxDelegations c1)) snapshot tgt c1
                (newDelegationsIterator tgt)) as Hres.
  destruct (for_loop_loads (Z.to_nat (MaxDelegations c1)) snapshot tgt c1
              (newDelegationsIterator tgt)) as (l & HF & Hcases).
  destruct (for_loop _ _ _ _ _) as [[r c2] it2]. cbn [fst] in *. intros ->.
  destruct Hcases as [(_ & Hr)|[(_ & _ & m' & Hr)|
    [(d & t & m' & Hlo & Ht & Hr)|[(d & e & _ & _ & Hr)|
     (d & t & err & _ & _ & Hr)]]]]; try discriminate.
  injection Hr as <-. exists snapshot, c1, l, d, t.
  split; [reflexivity|]. split; [exact Hlo|]. split; [exact HF|].
  split; [exact Ht|]. rewrite Hlo in Hres.
  apply Forall_app in Hres as [_ Hres].
  apply Forall_cons in Hres as [(store & Hr) _]. cbn [fst snd] in Hr.
  symmetry in Hr. apply loadDelegatedTargets_accepted in Hr.
  destruct Hr as (fm & raw & Hm & Ho & Hu). exists store, fm, raw. auto.
Qed.

(** When the loop ends on [ErrUnknownTarget] or on [ErrMaxDelegations],
    every role it loaded was loaded with success and does not list the
    target; on [ErrMaxDelegations] it loaded as many roles as the bound. *)
Theorem not_found_all_passed_over (n : nat) (snapshot : Snapshot)
    (tgt : string) (c : Client) (it : delegationsIterator) :
  (exists t v,
     fst (fst (for_loop n snapshot tgt c it)) = inl (ErrUnknownTarget t v)) \/
  (exists t m v,
     fst (fst (for_loop n snapshot tgt c it)) = inl (ErrMaxDelegations t m v)) ->
  Forall (passed_over tgt) (loads n snapshot tgt c it) /\
  ((exists t m v,
      fst (fst (for_loop n snapshot tgt c it)) = inl (ErrMaxDelegations t m v)) ->
   length (loads n snapshot tgt c it) = n).
Proof.
  intros Hr.
  destruct (for_loop_loads n snapshot tgt c it) as (l & HF & Hcases).
  destruct Hcases as [(Hlo & Hr')|[(Hlo & Hlen & m & Hr')|
    [(d & t & m & _ & _ & Hr')|[(d & e & _ & He & Hr')|
     (d & t & err & _ & _ & Hr')]]]]; rewrite Hr' in *.
  - rewrite Hlo. split; [exact HF|]. intros (? & ? & ? & [=]).
  - rewrite Hlo. split; [exact HF|]. intros _. exact Hlen.
  - destruct Hr as [(? & ? & [=])|(? & ? & ? & [=])].
  - destruct Hr as [(? & ? & [= ->])|(? & ? & ? & [= ->])]; contradiction.
  - destruct Hr as [(? & ? & [=])|(? & ? & ? & [=])].
Qed.

(** When [loadDelegatedTargets] fails in a pass of the loop, the loop
    returns that error at once: that call is the last one, and nothing is
    added to the iterator. *)
Theorem load_failure_propagates (n k : nat) (snapshot : Snapshot)
    (tgt : string) (c ck c1 : Client) (it itk it1 : delegationsIterator)
    (d : delegation) (e : error) :
  (k < n)%nat ->
  iterations k snapshot tgt c it = Some (ck, itk) ->
  next itk = (Some d, it1) ->
  loadDelegatedTargets ck snapshot (Name (delegatee d)) (verifier d)
    = (inl e, c1) ->
  for_loop n snapshot tgt c it = (inl e, c1, it1) /\
  loads n snapshot tgt c it = loads k snapshot tgt c it ++ [(d, inl e)].
Proof.
  intros Hk Hi Hn Hl.
  replace n with (k + S (n - S k))%nat by lia. split.
  - rewrite (iterations_for_loop _ _ _ _ _ _ _ Hi).
    cbn [for_loop]. unfold loop_body. rewrite Hn, Hl. reflexivity.
  - destruct (iterations_loads _ _ _ _ _ _ _ Hi) as [_ Happ].
    rewrite Happ. f_equal. cbn [loads]. rewrite Hn.
    unfold loop_body. rewrite Hn, Hl. reflexivity.
Qed.

(** When [add] fails on the delegations of the role just loaded, the loop
    returns its error at once: no further role is loaded, although the
    metadata of that role was accepted and, when downloaded, stored. *)
Theorem add_failure_propagates (n k : nat) (snapshot : Snapshot)
    (tgt : string) (c ck c1 : Client) (it itk it1 it2 : delegationsIterator)
    (d : delegation) (targets : Targets) (dels : Delegations)
    (dv : DelegationsVerifier) (e : error) :
  (k < n)%nat ->
  iterations k snapshot tgt c it = Some (ck, itk) ->
  next itk = (Some d, it1) ->
  loadDelegatedTargets ck snapshot (Name (delegatee d)) (verifier d)
    = (inr targets, c1) ->
  targets_Targets targets !! tgt = None ->
  targets_Delegations targets = Some dels ->
  NewDelegationsVerifier dels = inr dv ->
  add it1 (Roles dels) (Name (delegatee d)) dv = (Some e, it2) ->
  for_loop n snapshot tgt c it = (inl e, c1, it2) /\
  loads n snapshot tgt c it = loads k snapshot tgt c it ++ [(d, inr targets)].
Proof.
  intros Hk Hi Hn Hl Ht Hd Hv Ha.
  replace n with (k + S (n - S k))%nat by lia. split.
  - rewrite (iterations_for_loop _ _ _ _ _ _ _ Hi).
    cbn [for_loop]. unfold loop_body. rewrite Hn, Hl, Ht, Hd, Hv, Ha.
    reflexivity.
  - destruct (iterations_loads _ _ _ _ _ _ _ Hi) as [_ Happ].
    rewrite Happ. f_equal. cbn [loads]. rewrite Hn.
    unfold loop_body. rewrite Hn, Hl, Ht, Hd, Hv, Ha. reflexivity.
Qed.

Lemma for_loop_client (n : nat) (snapshot : Snapshot) (tgt : string)
    (c : Client) (it : delegationsIterator) :
  exists l, snd (fst (for_loop n snapshot tgt c it)) = set_local c l.
Proof.
  revert c it. induction n as [|n IH]; intros c it; cbn [for_loop].
  - exists (local c). rewrite set_local_id. reflexivity.
  - assert (Hb : exists l,
              snd (fst (loop_body snapshot tgt c it)) = set_local c l).
    { unfold loop_body. destruct (next it) as [[d|] it1].
      2: { exists (local c). rewrite set_local_id. reflexivity. }
      destruct (loadDelegatedTargets _ _ _ _) as [[err|targets] c1] eqn:Hl;
        apply loadDelegatedTargets_client in Hl;
        assert (Hc : exists l, c1 = set_local c l)
          by (destruct Hl as [->|Hl];
              [exists (local c); rewrite set_local_id; reflexivity|exact Hl]);
        clear Hl.
      { exact Hc. }
      destruct (targets_Targets targets !! tgt); [exact Hc|].
      destruct (targets_Delegations targets) as [dels|]; [|exact Hc].
      destruct (NewDelegationsVerifier dels); [exact Hc|].
      destruct (add it1 _ _ _) as [[err|] it2]; exact Hc. }
    destruct (loop_body snapshot tgt c it) as [[[r|] c'] it'];
      cbn [fst snd] in *; [exact Hb|].
    destruct Hb as [l ->]. destruct (IH (set_local c l) it') as [l' ->].
    exists l'. reflexivity.
Qed.

(** The loop writes to the local store only: the remote store, the local
    metadata read at the start, the trust database, the snapshot version
    and the bound of the client are as they were. *)
Theorem for_loop_keeps_client (n : nat) (snapshot : Snapshot) (tgt : string)
    (c : Client) (it : delegationsIterator) :
  let c' := snd (fst (for_loop n snapshot tgt c it)) in
  remote c' = remote c /\ localMeta c' = localMeta c /\ db c' = db c /\
  snapshotVer c' = snapshotVer c /\ MaxDelegations c' = MaxDelegations c.
Proof.
  cbv zeta. destruct (for_loop_client n snapshot tgt c it) as [l ->].
  repeat split.
Qed.

Lemma loop_body_visited (snapshot : Snapshot) (tgt : string) (c : Client)
    (it : delegationsIterator) :
  visitedRoles (snd (loop_body snapshot tgt c it)) =
    match fst (next it) with
    | Some d => {[Name (delegatee d)]} ∪ visitedRoles it
    | None => visitedRoles it
    end.
Proof.
  unfold loop_body. destruct (next it) as [[d|] it1] eqn:Hn; cbn [fst snd].
  2: { apply next_None in Hn as [-> _]. reflexivity. }
  apply next_Some in Hn as (_ & _ & Hv & _).
  destruct (loadDelegatedTargets _ _ _ _) as [[err|targets] c1]; [exact Hv|].
  destruct (targets_Targets targets !! tgt); [exact Hv|].
  destruct (targets_Delegations targets) as [dels|]; [|exact Hv].
  destruct (NewDelegationsVerifier dels); [exact Hv|].
  destruct (add it1 _ _ _) as [[err|] it2] eqn:Ha;
    apply add_loop_inv in Ha as (_ & Hv' & _); cbn [snd]; congruence.
Qed.

(** When the loop ends, the visited roles of the iterator are those it had
    at the start and the roles that were passed to
    [loadDelegatedTargets]. *)
Theorem visitedRoles_are_loads (n : nat) (snapshot : Snapshot) (tgt : string)
    (c : Client) (it : delegationsIterator) :
  visitedRoles (snd (for_loop n snapshot tgt c it)) =
    list_to_set (names (loads n snapshot tgt c it)) ∪ visitedRoles it.
Proof.
  revert c it. induction n as [|n IH]; intros c it; cbn [for_loop loads].
  - cbn. apply set_eq. intros x. rewrite elem_of_union, elem_of_empty. tauto.
  - pose proof (loop_body_visited snapshot tgt c it) as Hv.
    destruct (next it) as [[d|] it1] eqn:Hn; cbn [fst] in Hv.
    2: { unfold loop_body in *. rewrite Hn in *. cbn [snd] in *. rewrite Hv.
         cbn. apply set_eq. intros x. rewrite elem_of_union, elem_of_empty.
         tauto. }
    destruct (loop_body snapshot tgt c it) as [[[r|] c'] it'];
      cbn [snd] in *; unfold names; cbn [map fst list_to_set].
    + rewrite Hv. apply set_eq. intros x.
      rewrite !elem_of_union, elem_of_empty. tauto.
    + fold (names (loads n snapshot tgt c' it')). rewrite IH, Hv.
      apply set_eq. intros x. rewrite !elem_of_union. tauto.
Qed.

(** Once a run loads a terminating delegation, what was pending below the
    delegations it started from plays no part: with anything below, the
    run loads the same roles and ends on the same result and client. *)
Theorem terminating_drops_below (n : nat) (snapshot : Snapshot) (tgt : string)
    (c : Client) (it : delegationsIterator) (below : list delegation) :
  terminated (loads n snapshot tgt c it) = true ->
  loads n snapshot tgt c (set_stack it (below ++ stack it))
    = loads n snapshot tgt c it /\
  fst (for_loop n snapshot tgt c (set_stack it (below ++ stack it)))
    = fst (for_loop n snapshot tgt c it).
Proof.
  intros Ht. destruct (loads_below n snapshot tgt c it below) as [H1 H2].
  rewrite Ht in H1, H2. rewrite app_nil_r in H1. split; [exact H1|].
  rewrite H2. destruct (for_loop n snapshot tgt c it) as [[? ?] ?].
  reflexivity.
Qed.

(** That nothing is left to visit is found out by the pass after the last
    load: when the iterator is empty after exactly as many passes as the
    bound allows, the loop ends on [ErrMaxDelegations]; with any greater
    bound it ends on [ErrUnknownTarget]. *)
Theorem exhaustion_needs_one_more_pass (n : nat) (snapshot : Snapshot)
    (tgt : string) (c c' : Client) (it it' : delegationsIterator) :
  iterations n snapshot tgt c it = Some (c', it') ->
  fst (next it') = None ->
  fst (for_loop n snapshot tgt c it) =
    (inl (ErrMaxDelegations tgt (MaxDelegations c) (snapshot_Version snapshot)),
     c') /\
  forall m, (n < m)%nat ->
    fst (for_loop m snapshot tgt c it) =
      (inl (ErrUnknownTarget tgt (snapshot_Version snapshot)), c').
Proof.
  intros Hi Hn. split.
  - replace n with (n + 0)%nat at 1 by lia.
    rewrite (iterations_for_loop _ _ _ _ _ _ _ Hi). cbn [for_loop fst].
    rewrite (iterations_MaxDelegations _ _ _ _ _ _ _ Hi). reflexivity.
  - intros m Hm. replace m with (n + S (m - S n))%nat by lia.
    rewrite (iterations_for_loop _ _ _ _ _ _ _ Hi). cbn [for_loop].
    unfold loop_body. destruct (next it') as [[d|] it1]; [discriminate|].
    reflexivity.
Qed.

End ResolverMore.

(** * Further runs of the small repository *)

Section RunsMore.
Import Demo.

Lemma add_stops_at_last_failing_witness :
  add (CO := demo_collab malformed) after_seed
      ([role "A" ["f"] false] ++ bad_role :: [role "B" [] false])
      "targets" []
  = (Some (ErrExternal MalformedPattern),
     set_stack after_seed
       (stack after_seed ++
        rev (matching_edges (CO := demo_collab malformed) (target after_seed)
               [role "B" [] false] "targets" []))).
Proof.
  apply (add_stops_at_last_failing (CO := demo_collab malformed)).
  - reflexivity.
  - repeat constructor. exists true. reflexivity.
Defined.

Lemma nonpositive_bound_witness :
  getTargetFileMeta (CO := demo_collab tree) (tree_client (-1)) "f"
  = (inl (ErrMaxDelegations "f" (-1) 5), loaded tree (tree_client (-1))).
Proof.
  apply (proj1 (nonpositive_bound (CO := demo_collab tree) (tree_client (-1))
                  (loaded tree (tree_client (-1))) "f" (w_snapshot tree)
                  ltac:(vm_compute; reflexivity)
                  ltac:(vm_compute; discriminate))).
Defined.


Lemma result_from_verified_metadata_witness :
  exists snapshot c1 l d targets,
    loadLocalSnapshot (CO := demo_collab tree) (tree_client 10)
      = (inr snapshot, c1) /\
    loads (CO := demo_collab tree) (Z.to_nat (MaxDelegations c1)) snapshot "f"
      c1 (newDelegationsIterator "f") = l ++ [(d, inr targets)] /\
    Forall (passed_over "f") l /\
    targets_Targets targets !! "f" = Some (meta 42) /\
    exists store fileMeta raw,
      snapshot_Meta snapshot !! (Name (delegatee d) +:+ ".json")
        = Some fileMeta /\
      obtained (CO := demo_collab tree) (set_local c1 store)
        (Name (delegatee d) +:+ ".json") fileMeta = inr raw /\
      unmarshal (CO := demo_collab tree) (set_local c1 store)
        (Name (delegatee d)) (verifier d) raw fileMeta = inr targets.
Proof.
  apply (result_from_verified_metadata (CO := demo_collab tree)).
  vm_compute. reflexivity.
Defined.

Lemma not_found_all_passed_over_witness :
  Forall (passed_over "f")
    (loads (CO := demo_collab cycle) 10 (w_snapshot cycle) "f"
       (loaded cycle (cycle_client 10)) start).
Proof.
  apply (not_found_all_passed_over (CO := demo_collab cycle) 10
           (w_snapshot cycle) "f" (loaded cycle (cycle_client 10)) start).
  left. exists "f", 5. vm_compute. reflexivity.
Defined.

Lemma load_failure_propagates_witness :
  fst (fst (for_loop (CO := demo_collab forged) 10 (w_snapshot forged) "f"
              (loaded forged (forged_client 10)) start))
  = inl (ErrDecodeFailed "A.json" (VerifyErr InsufficientSignatures)).
Proof.
  refine (f_equal (fun x => fst (fst x))
            (proj1 (load_failure_propagates (CO := demo_collab forged) 10 1
                      (w_snapshot forged) "f"
                      (loaded forged (forged_client 10))
                      (fst (after forged (forged_client 10) 1))
                      (snd (load forged (forged_client 10) 1))
                      start
                      (snd (after forged (forged_client 10) 1))
                      (snd (next (snd (after forged (forged_client 10) 1))))
                      (popped forged (forged_client 10) 1)
                      (ErrDecodeFailed "A.json"
                         (VerifyErr InsufficientSignatures))
                      _ _ _ _))).
  - lia.
  - vm_compute. reflexivity.
  - vm_compute. reflexivity.
  - vm_compute. reflexivity.
Defined.

Lemma add_failure_propagates_witness :
  fst (fst (for_loop (CO := demo_collab malformed) 10 (w_snapshot malformed)
              "f" (loaded malformed (malformed_client 10)) start))
  = inl (ErrExternal MalformedPattern).
Proof.
  refine (f_equal (fun x => fst (fst x))
            (proj1 (add_failure_propagates (CO := demo_collab malformed) 10 0
                      (w_snapshot malformed) "f"
                      (loaded malformed (malformed_client 10))
                      (loaded malformed (malformed_client 10))
                      (snd (load malformed (malformed_client 10) 0))
                      start start after_seed
                      (snd (add (CO := demo_collab malformed) after_seed
                              [role "A" ["f"] false; bad_role; role "B" [] false]
                              "targets"
                              [role "A" ["f"] false; bad_role; role "B" [] false]))
                      seed
                      (loaded_targets malformed (malformed_client 10) 0)
                      {| Keys := [];
                         Roles := [role "A" ["f"] false; bad_role;
                                   role "B" [] false] |}
                      [role "A" ["f"] false; bad_role; role "B" [] false]
                      (ErrExternal MalformedPattern)
                      _ _ _ _ _ _ _ _))).
  - lia.
  - reflexivity.
  - vm_compute. reflexivity.
  - vm_compute. reflexivity.
  - vm_compute. reflexivity.
  - vm_compute. reflexivity.
  - reflexivity.
  - vm_compute. reflexivity.
Defined.

Lemma terminating_drops_below_witness :
  names (loads (CO := demo_collab pruned) 9 (w_snapshot pruned) "f"
           (fst (after pruned (pruned_client 10) 1)) pending)
  = ["T"; "U"].
Proof.
  assert (Ht : terminated
                 (loads (CO := demo_collab pruned) 9 (w_snapshot pruned) "f"
                    (fst (after pruned (pruned_client 10) 1))
                    (mkIterator [T_edge] "f" ({["targets"]} ∪ ∅))) = true).
  { vm_compute. reflexivity. }
  destruct (terminating_drops_below (CO := demo_collab pruned) 9
              (w_snapshot pruned) "f"
              (fst (after pruned (pruned_client 10) 1))
              (mkIterator [T_edge] "f" ({["targets"]} ∪ ∅)) [B_edge] Ht)
    as [H1 _].
  change pending
    with (set_stack (mkIterator [T_edge] "f" ({["targets"]} ∪ ∅))
            ([B_edge] ++ stack (mkIterator [T_edge] "f" ({["targets"]} ∪ ∅)))).
  rewrite H1. vm_compute. reflexivity.
Defined.

Lemma exhaustion_needs_one_more_pass_witness :
  fst (fst (for_loop (CO := demo_collab cycle) 2 (w_snapshot cycle) "f"
              (loaded cycle (cycle_client 2)) start))
    = inl (ErrMaxDelegations "f" 2 5) /\
  fst (fst (for_loop (CO := demo_collab cycle) 3 (w_snapshot cycle) "f"
              (loaded cycle (cycle_client 2)) start))
    = inl (ErrUnknownTarget "f" 5).
Proof.
  destruct (exhaustion_needs_one_more_pass (CO := demo_collab cycle) 2
              (w_snapshot cycle) "f" (loaded cycle (cycle_client 2))
              (fst (after cycle (cycle_client 2) 2)) start
              (snd (after cycle (cycle_client 2) 2)))
    as [H1 H2].
  - vm_compute. reflexivity.
  - vm_compute. reflexivity.
  - split.
    + rewrite H1. reflexivity.
    + rewrite (H2 3%nat) by lia. reflexivity.
Defined.

End RunsMore.
